(** * Image-to-PDF converter: page composition

    A shallow embedding of [components/image-to-pdf-converter.tsx] (the
    React component [ImageToPdfConverter]) and the properties of its
    page-composition logic.

    Number model.  The component computes with JavaScript numbers, that
    is in binary64.  The geometry (page sizes, margins, scale, offsets,
    progress) is embedded twice.  [computePlacement] is the handler read in
    exact arithmetic over the rationals [Q], with [Qeq] (written [==]) as
    equality: it says what the handler computes up to rounding, and only for
    images of non-zero width and height (a division by zero is 0 in [Q] and
    [Infinity] or [NaN] in JavaScript).  [Binary64.computePlacement] is the
    same handler in binary64, operation by operation; it decides what holds
    of the code exactly.  A statement about the first is marked as one of
    exact arithmetic.  The rotation of an image only ever holds integers,
    so it is embedded as [Z], and the JavaScript remainder [%] (truncating,
    sign of the dividend) is [Z.rem].

    Effects.  [convertToPdf] talks to React state setters, to the canvas
    and image loader of the browser and to the jsPDF library.  The browser
    is an explicit environment ([Env]), the jsPDF document is an explicit
    state ([jsPDF.t]) threaded through the loop, and every call to a setter
    or to jsPDF is recorded, in program order, in a trace of [Call]s.  The
    [await] on each image makes the run sequential; a run either returns,
    or waits for ever on an image that never loads, or throws. *)

From Stdlib Require Import QArith Qminmax Lqa ZArith Lia List String Bool Ascii.
From Stdlib Require Import Sorted.
From Stdlib Require PrimFloat Uint63.
Import ListNotations.

Open Scope string_scope.
Open Scope list_scope.
Open Scope Q_scope.

(** ** Browser objects *)

Module DOM.

(** A [File] of the browser.  The component only reads its name. *)
Record File : Type := { name : string }.

End DOM.

(** ** Types of the component *)

Record ImageFile : Type := {
  id : string;
  file : DOM.File;
  preview : string;
  rotation : Z
}.

Record PageSize : Type := {
  name : string;
  width : Q;
  height : Q
}.

Record MarginOption : Type := {
  value : Q;
  label : string
}.

Inductive Direction : Type :=
| clockwise
| counterclockwise.

(** The React state of the component ([useState] cells). *)
Record State : Type := {
  images : list ImageFile;
  pageSize : string;
  marginSize : Q;
  converting : bool;
  progress : Q
}.

(** The state on first render (the first revision of the file starts with
    a margin of 10 percent, the later one with 2 percent; nothing below
    depends on it). *)
Definition initialState : State :=
  {| images := []; pageSize := "letter"; marginSize := 10;
     converting := false; progress := 0 |}.

(** ** Tables *)

Definition inch_mark : string := String "034"%char EmptyString.

Definition pageSizes : list (string * PageSize) :=
  [ ("letter",
     {| name := ("Letter (8.5" ++ inch_mark ++ " x 11" ++ inch_mark ++ ")")%string;
        width := 215.9; height := 279.4 |});
    ("legal",
     {| name := ("Legal (8.5" ++ inch_mark ++ " x 14" ++ inch_mark ++ ")")%string;
        width := 215.9; height := 355.6 |});
    ("tabloid",
     {| name := ("Tabloid (11" ++ inch_mark ++ " x 17" ++ inch_mark ++ ")")%string;
        width := 279.4; height := 431.8 |});
    ("a4", {| name := "A4 (210 x 297 mm)"; width := 210; height := 297 |});
    ("a3", {| name := "A3 (297 x 420 mm)"; width := 297; height := 420 |}) ].

(** [pageSizes[key]]: [None] stands for JavaScript's [undefined]. *)
Fixpoint lookup (key : string) (table : list (string * PageSize))
  : option PageSize :=
  match table with
  | [] => None
  | (k, v) :: table' => if String.eqb k key then Some v else lookup key table'
  end.

Definition marginOptions : list MarginOption :=
  [ {| value := 0; label := "No Margin" |};
    {| value := 2; label := "Smaller (2%)" |};
    {| value := 5; label := "Small (5%)" |};
    {| value := 10; label := "Medium (10%)" |};
    {| value := 15; label := "Large (15%)" |};
    {| value := 20; label := "Extra Large (20%)" |} ].

(** ** The image list: [onDrop], [rotateImage], [removeImage] *)

(** One accepted file together with what the two nondeterministic calls of
    [onDrop] returned for it: the string cut out of [Math.random()] and the
    object URL made by [URL.createObjectURL]. *)
Record Accepted : Type := {
  acceptedFile : DOM.File;
  randomId : string;
  objectURL : string
}.

Definition newImage (a : Accepted) : ImageFile :=
  {| id := randomId a;
     file := acceptedFile a;
     preview := objectURL a;
     rotation := 0 |}.

Definition onDrop (acceptedFiles : list Accepted) (prev : list ImageFile)
  : list ImageFile :=
  prev ++ map newImage acceptedFiles.

Definition change (direction : Direction) : Z :=
  match direction with
  | clockwise => 90
  | counterclockwise => -90
  end.

Definition rotateImage (id0 : string) (direction : Direction)
  (imgs : list ImageFile) : list ImageFile :=
  map (fun image =>
         if String.eqb (id image) id0 then
           {| id := id image;
              file := file image;
              preview := preview image;
              rotation := Z.rem (rotation image + change direction + 360) 360 |}
         else image)
      imgs.

Definition removeImage (id0 : string) (imgs : list ImageFile)
  : list ImageFile :=
  filter (fun image => negb (String.eqb (id image) id0)) imgs.

Definition clearAllImages (_ : list ImageFile) : list ImageFile := [].

(** The user actions that change the image list, and their effect. *)
Inductive Action : Type :=
| Drop (acceptedFiles : list Accepted)
| Rotate (id0 : string) (direction : Direction)
| Remove (id0 : string)
| ClearAll.

Definition act (imgs : list ImageFile) (a : Action) : list ImageFile :=
  match a with
  | Drop acceptedFiles => onDrop acceptedFiles imgs
  | Rotate id0 direction => rotateImage id0 direction imgs
  | Remove id0 => removeImage id0 imgs
  | ClearAll => clearAllImages imgs
  end.

Definition session (actions : list Action) : list ImageFile :=
  fold_left act actions (images initialState).

(** ** Placement of one image on its page

    The arithmetic of the [img.onload] handler, lines 114-154 of
    [convertToPdf]; the specification calls it [computePlacement].  The
    fields are the local variables of the handler.  This is the handler in
    exact arithmetic, for a width and height that are not zero; its
    binary64 reading is [Binary64.computePlacement] below. *)

Record Placement : Type := {
  canvas_width : Q;
  canvas_height : Q;
  availableWidth : Q;
  availableHeight : Q;
  ratio : Q;
  imgWidth : Q;
  imgHeight : Q;
  x : Q;
  y : Q
}.

(** Lines 114-120: the canvas takes the dimensions of the image, swapped
    when the rotation is 90 or 270. *)
Definition swapped (rot : Z) : bool :=
  ((rot =? 90) || (rot =? 270))%Z.

Definition effective (img_width img_height : Q) (rot : Z) : Q * Q :=
  if swapped rot then (img_height, img_width) else (img_width, img_height).

Definition computePlacement (img_width img_height : Q) (rot : Z)
  (pageWidth pageHeight : Q) (margin : Q) : Placement :=
  let '(width0, height0) := effective img_width img_height rot in
  let marginFactor := margin / 100 in
  let availableWidth0 := pageWidth * (1 - marginFactor * 2) in
  let availableHeight0 := pageHeight * (1 - marginFactor * 2) in
  let ratio0 := Qmin (availableWidth0 / width0) (availableHeight0 / height0) in
  let imgWidth0 := width0 * ratio0 in
  let imgHeight0 := height0 * ratio0 in
  {| canvas_width := width0;
     canvas_height := height0;
     availableWidth := availableWidth0;
     availableHeight := availableHeight0;
     ratio := ratio0;
     imgWidth := imgWidth0;
     imgHeight := imgHeight0;
     x := (pageWidth - imgWidth0) / 2;
     y := (pageHeight - imgHeight0) / 2 |}.

(** ** The same placement in binary64

    Lines 114-154 again, with the numbers of JavaScript: every operation is
    the IEEE 754 binary64 one. *)

Module Binary64.

Definition number : Set := PrimFloat.float.

(** An integer (below 2^63) as a number. *)
Definition integer (z : Z) : number := PrimFloat.of_uint63 (Uint63.of_Z z).

(** The value of a decimal literal of the source: the binary64 number
    nearest to it (the correctly rounded quotient of two integers). *)
Definition literal (q : Q) : number :=
  PrimFloat.div (integer (Qnum q)) (integer (Zpos (Qden q))).

(** [Math.min] of two numbers: [NaN] if one of them is, and [-0] below
    [+0]. *)
Definition Math_min (a b : number) : number :=
  if (PrimFloat.is_nan a || PrimFloat.is_nan b)%bool then PrimFloat.nan
  else if PrimFloat.ltb a b then a
  else if PrimFloat.ltb b a then b
  else if PrimFloat.get_sign a then a
  else b.

Record Placement : Type := {
  canvas_width : number;
  canvas_height : number;
  availableWidth : number;
  availableHeight : number;
  ratio : number;
  imgWidth : number;
  imgHeight : number;
  x : number;
  y : number
}.

Definition computePlacement (img_width img_height : number) (rot : Z)
  (pageWidth pageHeight : number) (margin : number) : Placement :=
  let '(width0, height0) :=
    if swapped rot then (img_height, img_width)
    else (img_width, img_height) in
  let marginFactor := PrimFloat.div margin (integer 100) in
  let availableWidth0 :=
    PrimFloat.mul pageWidth
      (PrimFloat.sub (integer 1) (PrimFloat.mul marginFactor (integer 2))) in
  let availableHeight0 :=
    PrimFloat.mul pageHeight
      (PrimFloat.sub (integer 1) (PrimFloat.mul marginFactor (integer 2))) in
  let ratio0 :=
    Math_min (PrimFloat.div availableWidth0 width0)
             (PrimFloat.div availableHeight0 height0) in
  let imgWidth0 := PrimFloat.mul width0 ratio0 in
  let imgHeight0 := PrimFloat.mul height0 ratio0 in
  {| canvas_width := width0;
     canvas_height := height0;
     availableWidth := availableWidth0;
     availableHeight := availableHeight0;
     ratio := ratio0;
     imgWidth := imgWidth0;
     imgHeight := imgHeight0;
     x := PrimFloat.div (PrimFloat.sub pageWidth imgWidth0) (integer 2);
     y := PrimFloat.div (PrimFloat.sub pageHeight imgHeight0) (integer 2) |}.

End Binary64.

(** ** The browser during a conversion *)

(** What [canvas.toDataURL] returns: the bitmap of the canvas, described by
    what was drawn on it (the image behind [img.src], turned by the
    rotation about the centre) and by the size of the canvas. *)
Record ImageData : Type := {
  source : string;
  turned : Z;
  data_width : Q;
  data_height : Q
}.

(** The browser as [convertToPdf] meets it.  [getContext i] tells whether
    [canvas.getContext("2d")] of the [i]-th iteration gives a context (it is
    [null] otherwise).  [naturalSize url] is the size [(img.width,
    img.height)] of the image behind [url] once [img.onload] fires, and
    [None] when the image never loads: the handler is then never called. *)
Record Env : Type := {
  getContext : nat -> bool;
  naturalSize : string -> option (Q * Q)
}.

(** ** The document library *)

Module jsPDF.

Record Drawn : Type := {
  imageData : ImageData;
  at_x : Q;
  at_y : Q;
  drawn_width : Q;
  drawn_height : Q
}.

Record Page : Type := {
  getWidth : Q;
  getHeight : Q;
  content : list Drawn
}.

(** Modelled from the spec: the jsPDF library is not part of the
    repository.  A document is an ordered sequence of pages with one
    current page, the last one.  [new jsPDF] makes a document whose
    single, initial page has the given format; [addPage] appends an
    empty page of the given format and makes it current; [addImage]
    places a bitmap on the current page; [internal.pageSize] is the size
    of the current page.  The component asks for the portrait orientation;
    every format of its table is taller than wide ([pageSizes_portrait]),
    so the pages have the format as given. *)
Record t : Type := {
  before : list Page;
  current : Page
}.

Definition blank (format : Q * Q) : Page :=
  {| getWidth := fst format; getHeight := snd format; content := [] |}.

Definition new (format : Q * Q) : t :=
  {| before := []; current := blank format |}.

Definition addPage (format : Q * Q) (pdf : t) : t :=
  {| before := before pdf ++ [current pdf]; current := blank format |}.

Definition pageSize (pdf : t) : Page := current pdf.

Definition addImage (d : ImageData) (x0 y0 w h : Q) (pdf : t) : t :=
  {| before := before pdf;
     current :=
       {| getWidth := getWidth (current pdf);
          getHeight := getHeight (current pdf);
          content :=
            content (current pdf) ++
            [ {| imageData := d; at_x := x0; at_y := y0;
                 drawn_width := w; drawn_height := h |} ] |} |}.

Definition pages (pdf : t) : list Page := before pdf ++ [current pdf].

End jsPDF.

(** ** [convertToPdf] *)

(** The calls [convertToPdf] makes, in program order. *)
Inductive Call : Type :=
| setConverting (b : bool)
| setProgress (v : Q)
| new_jsPDF (format : Q * Q)
| pdf_addPage (format : Q * Q)
| pdf_addImage (d : ImageData) (x0 y0 w h : Q)
| pdf_save (filename : string) (document : list jsPDF.Page).

(** How a call of [convertToPdf] ends: it returns; or it waits for ever for
    an image whose [onload] never fires; or it throws, reading [.width] of
    an [undefined] page size. *)
Inductive Outcome : Type :=
| Returned
| Pending
| TypeError.

(** JavaScript numbers that count. *)
Definition toNumber (k : nat) : Q := inject_Z (Z.of_nat k).

(** The state of the loop between two iterations. *)
Record Loop : Type := {
  pdf : jsPDF.t;
  processedImages : nat
}.

(** The page format handed to jsPDF: [[selectedPageSize.width,
    selectedPageSize.height]]. *)
Definition format (selectedPageSize : PageSize) : Q * Q :=
  (width selectedPageSize, height selectedPageSize).

(** The body of [img.onload] (lines 113-164) in iteration [i], for an image
    of natural size [size]: the calls it makes and the state it leaves. *)
Definition onload (selectedPageSize : PageSize) (margin : Q)
  (totalImages : nat) (i : nat) (image : ImageFile) (size : Q * Q)
  (st : Loop) : list Call * Loop :=
  let pdf1 :=
    if (0 <? i)%nat then jsPDF.addPage (format selectedPageSize) (pdf st)
    else pdf st in
  let pageWidth := jsPDF.getWidth (jsPDF.pageSize pdf1) in
  let pageHeight := jsPDF.getHeight (jsPDF.pageSize pdf1) in
  let p := computePlacement (fst size) (snd size) (rotation image)
             pageWidth pageHeight margin in
  let imgData :=
    {| source := preview image; turned := rotation image;
       data_width := canvas_width p; data_height := canvas_height p |} in
  let pdf2 := jsPDF.addImage imgData (x p) (y p) (imgWidth p) (imgHeight p) pdf1 in
  let processed := S (processedImages st) in
  ((if (0 <? i)%nat then [pdf_addPage (format selectedPageSize)] else []) ++
   [ pdf_addImage imgData (x p) (y p) (imgWidth p) (imgHeight p);
     setProgress (toNumber processed / toNumber totalImages * 100) ],
   {| pdf := pdf2; processedImages := processed |}).

(** The [for] loop (lines 100-167) from iteration [i] on, over the images
    still to visit. *)
Fixpoint loop (env : Env) (selectedPageSize : PageSize) (margin : Q)
  (totalImages : nat) (i : nat) (rest : list ImageFile) (st : Loop)
  : list Call * Loop * Outcome :=
  match rest with
  | [] => ([], st, Returned)
  | image :: rest' =>
      if negb (getContext env i) then
        (* if (!ctx) continue *)
        loop env selectedPageSize margin totalImages (S i) rest' st
      else
        match naturalSize env (preview image) with
        | None => ([], st, Pending)
        | Some size =>
            let '(calls1, st1) :=
              onload selectedPageSize margin totalImages i image size st in
            let '(calls2, st2, o) :=
              loop env selectedPageSize margin totalImages (S i) rest' st1 in
            (calls1 ++ calls2, st2, o)
        end
  end.

Definition convertToPdf (env : Env) (s : State) : list Call * Outcome :=
  if (List.length (images s) =? 0)%nat then ([], Returned)
  else
    let entry := [setConverting true; setProgress 0] in
    match lookup (pageSize s) pageSizes with
    | None => (entry, TypeError)
    | Some selectedPageSize =>
        let totalImages := List.length (images s) in
        let '(calls, st, o) :=
          loop env selectedPageSize (marginSize s) totalImages 0%nat (images s)
            {| pdf := jsPDF.new (format selectedPageSize);
               processedImages := 0 |} in
        match o with
        | Returned =>
            (entry ++ [new_jsPDF (format selectedPageSize)] ++ calls ++
             [ pdf_save "converted-images.pdf" (jsPDF.pages (pdf st));
               setConverting false ],
             Returned)
        | _ => (entry ++ [new_jsPDF (format selectedPageSize)] ++ calls, o)
        end
    end.

(** ** Reading a trace *)

(** The documents handed to [pdf.save]. *)
Fixpoint saved (calls : list Call) : list (list jsPDF.Page) :=
  match calls with
  | [] => []
  | pdf_save _ document :: calls' => document :: saved calls'
  | _ :: calls' => saved calls'
  end.

(** The values handed to [setProgress]. *)
Fixpoint reported (calls : list Call) : list Q :=
  match calls with
  | [] => []
  | setProgress v :: calls' => v :: reported calls'
  | _ :: calls' => reported calls'
  end.

(** Whether a call goes to the document library. *)
Definition to_jsPDF (c : Call) : bool :=
  match c with
  | setConverting _ | setProgress _ => false
  | _ => true
  end.

(** Whether a call is [pdf.addPage]. *)
Definition is_addPage (c : Call) : bool :=
  match c with
  | pdf_addPage _ => true
  | _ => false
  end.

(** The page the specification expects for one image: a page of the
    selected size that holds the rotated image at its placement. *)
Definition pageOf (selectedPageSize : PageSize) (margin : Q)
  (image : ImageFile) (size : Q * Q) : jsPDF.Page :=
  let p := computePlacement (fst size) (snd size) (rotation image)
             (width selectedPageSize) (height selectedPageSize) margin in
  {| jsPDF.getWidth := width selectedPageSize;
     jsPDF.getHeight := height selectedPageSize;
     jsPDF.content :=
       [ {| jsPDF.imageData :=
              {| source := preview image; turned := rotation image;
                 data_width := canvas_width p; data_height := canvas_height p |};
            jsPDF.at_x := x p; jsPDF.at_y := y p;
            jsPDF.drawn_width := imgWidth p;
            jsPDF.drawn_height := imgHeight p |} ] |}.


(** The pairs (image placed, progress reported right after it): each
    [pdf.addImage] that is directly followed by a [setProgress]. *)
Fixpoint milestones (calls : list Call) : list (string * Q) :=
  match calls with
  | [] => []
  | pdf_addImage d _ _ _ _ :: calls' =>
      match calls' with
      | setProgress v :: _ => (source d, v) :: milestones calls'
      | _ => milestones calls'
      end
  | _ :: calls' => milestones calls'
  end.

(** ** Vocabulary of the statements *)

(** Rotations that are a quarter turn. *)
Definition quarter_turn (rot : Z) : Prop := In rot [0; 90; 180; 270]%Z.

Definition quarter_turns (imgs : list ImageFile) : Prop :=
  Forall (fun image => quarter_turn (rotation image)) imgs.

(** What [rotateImage] does to one record (the function it maps). *)
Definition turn (id0 : string) (direction : Direction) (image : ImageFile)
  : ImageFile :=
  if String.eqb (id image) id0 then
    {| id := id image; file := file image; preview := preview image;
       rotation := Z.rem (rotation image + change direction + 360) 360 |}
  else image.

(** The natural size of an image that loads. *)
Definition sizeOf (env : Env) (image : ImageFile) : Q * Q :=
  match naturalSize env (preview image) with
  | Some size => size
  | None => (0, 0)
  end.

(** [k] of [totalImages] as a percentage, the way line 161 computes it. *)
Definition share (totalImages k : nat) : Q :=
  toNumber k / toNumber totalImages * 100.

(** The images that load have a positive width and height. *)
Definition positive_sizes (env : Env) (imgs : list ImageFile) : Prop :=
  forall image size,
    In image imgs -> naturalSize env (preview image) = Some size ->
    0 < fst size /\ 0 < snd size.

(** A run in which the browser cooperates: the selected page size is one of
    the table, every iteration obtains a 2D context and every image loads,
    with a positive width and height. *)
Definition favourable (env : Env) (s : State) : Prop :=
  In (pageSize s) (map fst pageSizes) /\
  (forall i, (i < List.length (images s))%nat -> getContext env i = true) /\
  (forall image, In image (images s) -> naturalSize env (preview image) <> None) /\
  positive_sizes env (images s).

(** The run returns and saves one document; it has as many pages as there
    are images; the [i]-th page is the page of the [i]-th image; and a page
    was added for every image but the first. *)
Definition one_page_per_image (env : Env) (s : State) : Prop :=
  exists calls document,
    convertToPdf env s = (calls, Returned) /\
    saved calls = [document] /\
    List.length document = List.length (images s) /\
    (forall i image,
       nth_error (images s) i = Some image ->
       exists selectedPageSize size,
         lookup (pageSize s) pageSizes = Some selectedPageSize /\
         naturalSize env (preview image) = Some size /\
         nth_error document i =
           Some (pageOf selectedPageSize (marginSize s) image size)) /\
    List.length (filter is_addPage calls) = (List.length (images s) - 1)%nat.

(** The progress reported right after the [k]-th image is placed is
    [k / n * 100]; the reported values increase strictly, lie between 0 and
    100, and the last one is 100. *)
Definition progress_by_image (env : Env) (s : State) : Prop :=
  let calls := fst (convertToPdf env s) in
  let n := List.length (images s) in
  (forall k image,
     nth_error (images s) k = Some image ->
     nth_error (milestones calls) k = Some (preview image, share n (S k))) /\
  StronglySorted Qlt (reported calls) /\
  Forall (fun v => 0 <= v /\ v <= 100) (reported calls) /\
  last (reported calls) 0 == 100.

(** ** Sample runs *)

Definition sample_file : DOM.File := {| DOM.name := "scan.png" |}.

Definition sample_image (i : string) (rot : Z) : ImageFile :=
  {| id := i; file := sample_file; preview := ("blob:" ++ i)%string;
     rotation := rot |}.

(** Two 800 x 600 images, the second turned by 90 degrees, on Letter pages
    with a margin of 10 percent. *)
Definition sample_state : State :=
  {| images := [sample_image "a" 0; sample_image "b" 90];
     pageSize := "letter"; marginSize := 10;
     converting := false; progress := 0 |}.

Definition cooperative : Env :=
  {| getContext := fun _ => true;
     naturalSize := fun _ => Some (800, 600) |}.

(** A browser that gives no 2D context in the second iteration. *)
Definition no_second_context : Env :=
  {| getContext := fun i => negb (i =? 1)%nat;
     naturalSize := fun _ => Some (800, 600) |}.

(** ** Vocabulary of the further properties *)

(** The other direction. *)
Definition opposite (direction : Direction) : Direction :=
  match direction with
  | clockwise => counterclockwise
  | counterclockwise => clockwise
  end.

(** The accepted files of all the drops of a sequence of actions. *)
Fixpoint dropped (actions : list Action) : list Accepted :=
  match actions with
  | [] => []
  | Drop acceptedFiles :: actions' => acceptedFiles ++ dropped actions'
  | _ :: actions' => dropped actions'
  end.

(** A record that carries the id, file and preview [onDrop] made for one
    of the accepted files of [pool]. *)
Definition from_drop (pool : list Accepted) (image : ImageFile) : Prop :=
  exists a, In a pool /\
    id image = randomId a /\ file image = acceptedFile a /\
    preview image = objectURL a.


(** The images of the iterations, from the [i]-th on, that obtain a 2D
    context: the ones the loop does not skip. *)
Fixpoint visited (env : Env) (i : nat) (rest : list ImageFile)
  : list ImageFile :=
  match rest with
  | [] => []
  | image :: rest' =>
      if getContext env i then image :: visited env (S i) rest'
      else visited env (S i) rest'
  end.

(** Whether [img.onload] fires for an image. *)
Definition loads (env : Env) (image : ImageFile) : bool :=
  match naturalSize env (preview image) with
  | Some _ => true
  | None => false
  end.

(** The calls the loop can make. *)
Definition in_loop (c : Call) : bool :=
  match c with
  | pdf_addPage _ | pdf_addImage _ _ _ _ _ | setProgress _ => true
  | _ => false
  end.


(** The first page of a document: the first image, or nothing when its
    iteration was skipped. *)
Definition firstPage (env : Env) (selectedPageSize : PageSize) (margin : Q)
  (image : ImageFile) : jsPDF.Page :=
  if getContext env 0 then
    pageOf selectedPageSize margin image (sizeOf env image)
  else jsPDF.blank (format selectedPageSize).


(** The Letter entry of the table. *)
Definition letter : PageSize :=
  match lookup "letter" pageSizes with
  | Some selectedPageSize => selectedPageSize
  | None => {| name := ""; width := 0; height := 0 |}
  end.


(** A browser in which no image ever loads. *)
Definition never_loads : Env :=
  {| getContext := fun _ => true;
     naturalSize := fun _ => None |}.

(** A browser that gives no 2D context in the first iteration. *)
Definition no_first_context : Env :=
  {| getContext := fun i => negb (i =? 0)%nat;
     naturalSize := fun _ => Some (800, 600) |}.

(** [setImages]: the state with a new image list. *)
Definition setImages (imgs : list ImageFile) (s : State) : State :=
  {| images := imgs; pageSize := pageSize s; marginSize := marginSize s;
     converting := converting s; progress := progress s |}.

(** A browser that never gives a 2D context. *)
Definition no_context : Env :=
  {| getContext := fun _ => false;
     naturalSize := fun _ => Some (800, 600) |}.

(** The property names every JavaScript object inherits from
    [Object.prototype]: [pageSizes[key]] is not [undefined] for them,
    although they are no keys of the table.  [lookup] stands for
    [pageSizes[key]] on all other strings. *)
Definition inherited : list string :=
  [ "constructor"; "hasOwnProperty"; "isPrototypeOf"; "propertyIsEnumerable";
    "toLocaleString"; "toString"; "valueOf"; "__proto__";
    "__defineGetter__"; "__defineSetter__";
    "__lookupGetter__"; "__lookupSetter__" ].

(** The sample images with a page size that the table does not have. *)
Definition unknown_size_state : State :=
  {| images := images sample_state; pageSize := "a5";
     marginSize := 10; converting := false; progress := 0 |}.

(** * Properties *)

(** ** Geometry of one placement *)

(** The handler computes with exactly the fields it stores. *)
Lemma computePlacement_fields (w h : Q) (r : Z) (PW PH margin : Q) :
  let p := computePlacement w h r PW PH margin in
  (canvas_width p, canvas_height p) = effective w h r /\
  availableWidth p = PW * (1 - margin / 100 * 2) /\
  availableHeight p = PH * (1 - margin / 100 * 2) /\
  ratio p =
    Qmin (availableWidth p / canvas_width p)
         (availableHeight p / canvas_height p) /\
  imgWidth p = canvas_width p * ratio p /\
  imgHeight p = canvas_height p * ratio p /\
  x p = (PW - imgWidth p) / 2 /\
  y p = (PH - imgHeight p) / 2.
Proof.
  unfold computePlacement.
  destruct (effective w h r) as [ew eh]. cbn. repeat split.
Qed.

Lemma effective_positive (w h : Q) (r : Z) (ew eh : Q) :
  effective w h r = (ew, eh) -> 0 < w -> 0 < h -> 0 < ew /\ 0 < eh.
Proof.
  unfold effective. destruct (swapped r); intros [= <- <-]; auto.
Qed.

(** The margin fractions [marginSize / 100] that the margin selector can
    produce. *)
Lemma marginFactor_values :
  Forall2 Qeq (map (fun o => value o / 100) marginOptions)
    [0; 0.02; 0.05; 0.10; 0.15; 0.20].
Proof. repeat constructor. Qed.

(** Every page size of the table is in portrait format. *)
Lemma pageSizes_portrait :
  Forall (fun entry => width (snd entry) < height (snd entry)) pageSizes.
Proof. repeat constructor. Qed.

(** C1. For an image of positive size [w] x [h], a rotation among 0, 90,
    180, 270, a page of positive size [PW] x [PH] and a margin of the
    selector ([m = margin / 100] among 0, 0.02, 0.05, 0.10, 0.15, 0.20), the
    scale is [min (PW (1 - 2m) / ew) (PH (1 - 2m) / eh)] for the effective
    dimensions [ew], [eh], and the scaled dimensions are [ew * scale] and
    [eh * scale]. *)
Theorem computePlacement_scale (w h : Q) (r : Z) (PW PH margin ew eh : Q) :
  0 < w -> 0 < h -> In r [0; 90; 180; 270]%Z -> 0 < PW -> 0 < PH ->
  In margin (map value marginOptions) ->
  effective w h r = (ew, eh) ->
  let m := margin / 100 in
  let p := computePlacement w h r PW PH margin in
  ratio p == Qmin (PW * (1 - 2 * m) / ew) (PH * (1 - 2 * m) / eh) /\
  imgWidth p == ew * ratio p /\
  imgHeight p == eh * ratio p.
Proof.
  intros Hw Hh _ _ _ _ He m p.
  destruct (effective_positive w h r ew eh He Hw Hh) as [Hew Heh].
  destruct (computePlacement_fields w h r PW PH margin)
    as (Hc & Haw & Hah & Hr & Hiw & Hih & _).
  cbv zeta in Hc, Haw, Hah, Hr, Hiw, Hih. subst p.
  rewrite He in Hc. injection Hc as Hcw Hch.
  rewrite Hiw, Hih, Hr, Haw, Hah, Hcw, Hch. subst m.
  repeat split; try reflexivity.
  apply Q.min_compat; field; lra.
Qed.

Lemma computePlacement_scale_witness :
  let p := computePlacement 800 600 90 210 297 5 in
  ratio p == Qmin (210 * (1 - 2 * (5 / 100)) / 600)
                  (297 * (1 - 2 * (5 / 100)) / 800) /\
  imgWidth p == 600 * ratio p /\
  imgHeight p == 800 * ratio p.
Proof.
  apply (computePlacement_scale 800 600 90 210 297 5 600 800);
    try reflexivity; simpl; tauto.
Defined.

(** C2. At rotation 90 or 270 the effective width is the intrinsic height
    and the effective height the intrinsic width; at rotation 0 or 180 they
    are the intrinsic width and height; the scale and the scaled dimensions
    are computed from these effective dimensions. *)
Theorem effective_dimensions (w h PW PH margin : Q) :
  (forall r, In r [90; 270]%Z ->
     let p := computePlacement w h r PW PH margin in
     canvas_width p = h /\ canvas_height p = w) /\
  (forall r, In r [0; 180]%Z ->
     let p := computePlacement w h r PW PH margin in
     canvas_width p = w /\ canvas_height p = h) /\
  (forall r,
     let p := computePlacement w h r PW PH margin in
     ratio p =
       Qmin (availableWidth p / canvas_width p)
            (availableHeight p / canvas_height p) /\
     imgWidth p = canvas_width p * ratio p /\
     imgHeight p = canvas_height p * ratio p).
Proof.
  split; [|split]; intros r.
  - intros [<- | [<- | []]]; split; reflexivity.
  - intros [<- | [<- | []]]; split; reflexivity.
  - intros p.
    destruct (computePlacement_fields w h r PW PH margin)
      as (_ & _ & _ & Hr & Hiw & Hih & _).
    auto.
Qed.



(** An image of width and height 0 in binary64: the ratio is infinite and
    the drawn size and the offsets are [NaN], where exact arithmetic would
    divide by zero.  Hence the positive sizes asked of the runs below. *)
Lemma zero_size_binary64 :
  let p :=
    Binary64.computePlacement (Binary64.integer 0) (Binary64.integer 0) 0
      (Binary64.literal (width letter)) (Binary64.literal (height letter))
      (Binary64.integer 10) in
  Binary64.ratio p = PrimFloat.infinity /\
  PrimFloat.is_nan (Binary64.imgWidth p) = true /\
  PrimFloat.is_nan (Binary64.imgHeight p) = true /\
  PrimFloat.is_nan (Binary64.x p) = true /\
  PrimFloat.is_nan (Binary64.y p) = true.
Proof. vm_compute. repeat split. Qed.







(** C8. An 800 x 600 image, not rotated, on Letter pages (215.9 x 279.4)
    with a margin of 10 percent: available area 172.72 x 223.52, effective
    dimensions 800 x 600, scale 0.2159, scaled dimensions 172.72 x 129.54,
    offsets 21.59 and 74.93. *)
Theorem letter_scenario :
  exists letter,
    lookup "letter" pageSizes = Some letter /\
    width letter == 215.9 /\ height letter == 279.4 /\
    let p := computePlacement 800 600 0 (width letter) (height letter) 10 in
    10 / 100 == 0.10 /\
    availableWidth p == 172.72 /\ availableHeight p == 223.52 /\
    canvas_width p == 800 /\ canvas_height p == 600 /\
    ratio p == 0.2159 /\
    imgWidth p == 172.72 /\ imgHeight p == 129.54 /\
    x p == 21.59 /\ y p == 74.93.
Proof.
  eexists. split; [reflexivity|].
  repeat split; vm_compute; reflexivity.
Qed.

(** ** The image list *)

Lemma rotateImage_map id0 direction imgs :
  rotateImage id0 direction imgs = map (turn id0 direction) imgs.
Proof. reflexivity. Qed.

Lemma rotateImage_nth id0 direction imgs i :
  nth_error (rotateImage id0 direction imgs) i =
  option_map (turn id0 direction) (nth_error imgs i).
Proof. rewrite rotateImage_map. apply nth_error_map. Qed.

Lemma turn_other id0 direction image :
  id image <> id0 -> turn id0 direction image = image.
Proof.
  intros Hne. unfold turn.
  destruct (String.eqb_spec (id image) id0); [contradiction | reflexivity].
Qed.

Lemma turn_keeps id0 direction image :
  id (turn id0 direction image) = id image /\
  file (turn id0 direction image) = file image /\
  preview (turn id0 direction image) = preview image.
Proof. unfold turn. destruct (String.eqb (id image) id0); auto. Qed.

Lemma turn_rotation id0 direction image :
  id image = id0 -> quarter_turn (rotation image) ->
  rotation (turn id0 direction image) =
    ((rotation image + change direction) mod 360)%Z.
Proof.
  intros Hid Hq. unfold turn.
  rewrite (proj2 (String.eqb_eq _ _) Hid). cbn [rotation].
  destruct direction, Hq as [<- | [<- | [<- | [<- | []]]]]; reflexivity.
Qed.

Lemma turn_quarter id0 direction image :
  quarter_turn (rotation image) ->
  quarter_turn (rotation (turn id0 direction image)).
Proof.
  intros Hq. unfold turn.
  destruct (String.eqb (id image) id0); [|exact Hq]. cbn [rotation].
  destruct direction, Hq as [<- | [<- | [<- | [<- | []]]]];
    vm_compute; tauto.
Qed.

Lemma rotateImage_quarter id0 direction imgs :
  quarter_turns imgs -> quarter_turns (rotateImage id0 direction imgs).
Proof.
  unfold quarter_turns. rewrite rotateImage_map.
  induction 1 as [|image imgs Hq _ IH]; cbn [map]; constructor;
    auto using turn_quarter.
Qed.

Lemma onDrop_quarter acceptedFiles prev :
  quarter_turns prev -> quarter_turns (onDrop acceptedFiles prev).
Proof.
  intros Hprev. unfold quarter_turns, onDrop.
  apply Forall_app. split; [exact Hprev|].
  apply Forall_map, Forall_forall. intros a _. left. reflexivity.
Qed.

Lemma removeImage_quarter id0 imgs :
  quarter_turns imgs -> quarter_turns (removeImage id0 imgs).
Proof.
  unfold quarter_turns, removeImage. intros Hq.
  apply Forall_forall. intros image Hin.
  apply filter_In in Hin. destruct Hin as [Hin _].
  revert image Hin. apply Forall_forall, Hq.
Qed.

Lemma act_quarter imgs a : quarter_turns imgs -> quarter_turns (act imgs a).
Proof.
  destruct a; cbn [act];
    auto using onDrop_quarter, rotateImage_quarter, removeImage_quarter.
  intros _. constructor.
Qed.

Lemma fold_act_quarter actions :
  forall imgs, quarter_turns imgs -> quarter_turns (fold_left act actions imgs).
Proof.
  induction actions as [|a actions IH]; intros imgs Hq; cbn [fold_left];
    auto using act_quarter.
Qed.

(** C7. A record is created with rotation 0; a rotation adds 90
    (clockwise) or subtracts 90 (counterclockwise) modulo 360 and keeps
    every rotation of the list among 0, 90, 180 and 270; so does every
    sequence of user actions from the empty list. *)
Theorem rotation_invariant :
  (forall a, rotation (newImage a) = 0%Z) /\
  (forall acceptedFiles prev image,
     In image (onDrop acceptedFiles prev) ->
     In image prev \/ rotation image = 0%Z) /\
  (forall id0 direction imgs i image,
     quarter_turns imgs -> nth_error imgs i = Some image -> id image = id0 ->
     exists image',
       nth_error (rotateImage id0 direction imgs) i = Some image' /\
       rotation image' =
         match direction with
         | clockwise => ((rotation image + 90) mod 360)%Z
         | counterclockwise => ((rotation image - 90) mod 360)%Z
         end) /\
  (forall id0 direction imgs,
     quarter_turns imgs -> quarter_turns (rotateImage id0 direction imgs)) /\
  (forall actions, quarter_turns (session actions)).
Proof.
  split; [reflexivity|].
  split.
  { intros acceptedFiles prev image Hin. unfold onDrop in Hin.
    apply in_app_or in Hin. destruct Hin as [Hin | Hin]; [left; exact Hin|].
    right. apply in_map_iff in Hin. destruct Hin as (a & <- & _). reflexivity. }
  split.
  { intros id0 direction imgs i image Hq Hnth Hid.
    exists (turn id0 direction image). split.
    - rewrite rotateImage_nth, Hnth. reflexivity.
    - unfold quarter_turns in Hq. rewrite Forall_forall in Hq.
      specialize (Hq image (nth_error_In _ _ Hnth)).
      rewrite (turn_rotation id0 direction image Hid Hq).
      destruct direction; reflexivity. }
  split; [exact rotateImage_quarter|].
  intros actions. apply fold_act_quarter. constructor.
Qed.

(** C10. [rotateImage] changes at most the rotation of the records whose
    id is the given one: the length of the list, the ids, files and
    previews in their order and every other record stay as they are, and a
    list without the id is unchanged. *)
Theorem rotateImage_frame (id0 : string) (direction : Direction)
  (imgs : list ImageFile) :
  let imgs' := rotateImage id0 direction imgs in
  List.length imgs' = List.length imgs /\
  map id imgs' = map id imgs /\
  map file imgs' = map file imgs /\
  map preview imgs' = map preview imgs /\
  (forall i image,
     nth_error imgs i = Some image -> id image <> id0 ->
     nth_error imgs' i = Some image) /\
  ((forall image, In image imgs -> id image <> id0) -> imgs' = imgs).
Proof.
  intros imgs'. subst imgs'. rewrite rotateImage_map.
  split; [apply length_map|].
  repeat rewrite map_map.
  split; [apply map_ext; intros; apply turn_keeps|].
  split; [apply map_ext; intros; apply turn_keeps|].
  split; [apply map_ext; intros; apply turn_keeps|].
  split.
  - intros i image Hnth Hne.
    rewrite nth_error_map, Hnth. cbn. f_equal. apply turn_other, Hne.
  - intros Hnone. rewrite <- (map_id imgs) at 2.
    apply map_ext_in. intros image Hin. apply turn_other, Hnone, Hin.
Qed.

(** ** Reading traces *)

Lemma reported_app calls1 calls2 :
  reported (calls1 ++ calls2) = reported calls1 ++ reported calls2.
Proof.
  induction calls1 as [|c calls1 IH]; [reflexivity|].
  destruct c; cbn [app reported]; rewrite IH; reflexivity.
Qed.

Lemma saved_app calls1 calls2 :
  saved (calls1 ++ calls2) = saved calls1 ++ saved calls2.
Proof.
  induction calls1 as [|c calls1 IH]; [reflexivity|].
  destruct c; cbn [app saved]; rewrite IH; reflexivity.
Qed.

Lemma milestones_before_save calls filename document tail :
  milestones (calls ++ pdf_save filename document :: tail) =
  milestones calls ++ milestones tail.
Proof.
  induction calls as [|c calls IH]; [reflexivity|].
  destruct c; cbn [app milestones]; try exact IH.
  destruct calls as [|c' calls']; [reflexivity|].
  destruct c'; cbn [app] in IH |- *; rewrite IH; reflexivity.
Qed.

Lemma nth_error_milestone {A : Type} (f : nat -> A) (imgs : list ImageFile) :
  forall a k image,
    nth_error imgs k = Some image ->
    nth_error (combine (map preview imgs) (map f (seq a (List.length imgs)))) k =
      Some (preview image, f (a + k)%nat).
Proof.
  induction imgs as [|image0 imgs IH]; intros a [|k] image Hnth;
    cbn [nth_error List.length seq map combine] in *; try discriminate.
  - injection Hnth as ->. rewrite Nat.add_0_r. reflexivity.
  - rewrite (IH (S a) k image Hnth). do 3 f_equal. lia.
Qed.

Lemma lookup_In key table :
  In key (map fst table) -> exists v, lookup key table = Some v.
Proof.
  induction table as [|[k v] table IH]; cbn [map fst In lookup]; [tauto|].
  intros [-> | Hin].
  - rewrite String.eqb_refl. eauto.
  - destruct (String.eqb k key); eauto.
Qed.

Lemma naturalSize_sizeOf env image :
  naturalSize env (preview image) <> None ->
  naturalSize env (preview image) = Some (sizeOf env image).
Proof.
  unfold sizeOf. destruct (naturalSize env (preview image)); congruence.
Qed.

(** ** One run of [convertToPdf] *)

(** The handler of the first iteration draws on the initial page. *)
Lemma onload_first selectedPageSize margin totalImages image size :
  exists d x0 y0 w h pdf1,
    onload selectedPageSize margin totalImages 0 image size
      {| pdf := jsPDF.new (format selectedPageSize); processedImages := 0 |} =
      ([ pdf_addImage d x0 y0 w h; setProgress (share totalImages 1) ],
       {| pdf := pdf1; processedImages := 1 |}) /\
    source d = preview image /\
    jsPDF.pages pdf1 = [pageOf selectedPageSize margin image size].
Proof.
  unfold onload. cbn [Nat.ltb Nat.leb].
  do 6 eexists. split; [reflexivity|]. split; reflexivity.
Qed.

(** The handler of a later iteration appends a page and draws on it. *)
Lemma onload_later selectedPageSize margin totalImages i image size st :
  (0 < i)%nat ->
  exists d x0 y0 w h pdf1,
    onload selectedPageSize margin totalImages i image size st =
      ([ pdf_addPage (format selectedPageSize); pdf_addImage d x0 y0 w h;
         setProgress (share totalImages (S (processedImages st))) ],
       {| pdf := pdf1; processedImages := S (processedImages st) |}) /\
    source d = preview image /\
    jsPDF.pages pdf1 =
      jsPDF.pages (pdf st) ++ [pageOf selectedPageSize margin image size].
Proof.
  intros Hi. unfold onload.
  destruct (Nat.ltb_spec 0 i) as [_ | Hle]; [|lia].
  do 6 eexists. split; [reflexivity|]. split; reflexivity.
Qed.

(** The loop from a later iteration on, when every remaining iteration
    obtains a context and every remaining image loads. *)
Lemma loop_later env selectedPageSize margin totalImages rest :
  forall i st,
    (0 < i)%nat ->
    (forall j, (i <= j < i + List.length rest)%nat -> getContext env j = true) ->
    (forall image, In image rest -> naturalSize env (preview image) <> None) ->
    exists calls st',
      loop env selectedPageSize margin totalImages i rest st =
        (calls, st', Returned) /\
      jsPDF.pages (pdf st') =
        jsPDF.pages (pdf st) ++
        map (fun image => pageOf selectedPageSize margin image (sizeOf env image))
            rest /\
      reported calls =
        map (share totalImages)
            (seq (S (processedImages st)) (List.length rest)) /\
      milestones calls =
        combine (map preview rest)
                (map (share totalImages)
                     (seq (S (processedImages st)) (List.length rest))) /\
      filter is_addPage calls =
        repeat (pdf_addPage (format selectedPageSize)) (List.length rest) /\
      saved calls = [].
Proof.
  induction rest as [|image rest IH]; intros i st Hi Hctx Hload.
  - exists [], st. cbn. rewrite app_nil_r. repeat split.
  - cbn [loop].
    rewrite (Hctx i) by (cbn [List.length]; lia). cbn [negb].
    rewrite (naturalSize_sizeOf env image (Hload image (or_introl eq_refl))).
    destruct (onload_later selectedPageSize margin totalImages
                i image (sizeOf env image) st Hi)
      as (d & x0 & y0 & w & h & pdf1 & -> & Hd & Hpages).
    destruct (IH (S i) {| pdf := pdf1; processedImages := S (processedImages st) |})
      as (calls & st' & -> & Hp & Hr & Hm & Hf & Hs).
    + lia.
    + intros j Hj. apply Hctx. cbn [List.length]. lia.
    + intros image' Hin. apply Hload. right. exact Hin.
    + cbn [pdf processedImages] in Hp, Hr, Hm.
      eexists _, st'. split; [reflexivity|].
      split.
      { rewrite Hp, Hpages, <- app_assoc. reflexivity. }
      split.
      { cbn [app reported List.length seq map]. rewrite Hr. reflexivity. }
      split.
      { cbn [app List.length seq map combine milestones].
        destruct calls as [|c calls]; cbn [milestones]; rewrite Hd, <- Hm;
          reflexivity. }
      split.
      { cbn [app filter is_addPage List.length repeat]. rewrite Hf. reflexivity. }
      cbn [app saved]. exact Hs.
Qed.

(** The whole run when the browser cooperates. *)
Lemma convertToPdf_favourable env s :
  images s <> [] -> favourable env s ->
  exists selectedPageSize calls,
    lookup (pageSize s) pageSizes = Some selectedPageSize /\
    convertToPdf env s = (calls, Returned) /\
    saved calls =
      [ map (fun image =>
               pageOf selectedPageSize (marginSize s) image (sizeOf env image))
            (images s) ] /\
    reported calls =
      0 :: map (share (List.length (images s)))
               (seq 1 (List.length (images s))) /\
    milestones calls =
      combine (map preview (images s))
              (map (share (List.length (images s)))
                   (seq 1 (List.length (images s)))) /\
    List.length (filter is_addPage calls) = (List.length (images s) - 1)%nat.
Proof.
  intros Hne (Hkey & Hctx & Hload & _).
  destruct (lookup_In _ _ Hkey) as [selectedPageSize Hsel].
  unfold convertToPdf. rewrite Hsel.
  destruct (images s) as [|image rest] eqn:Himages; [congruence|].
  cbn [List.length Nat.eqb loop].
  rewrite (Hctx 0%nat) by (cbn [List.length]; lia). cbn [negb].
  rewrite (naturalSize_sizeOf env image (Hload image (or_introl eq_refl))).
  destruct (onload_first selectedPageSize (marginSize s)
              (S (List.length rest)) image (sizeOf env image))
    as (d & x0 & y0 & w & h & pdf1 & -> & Hd & Hpages).
  destruct (loop_later env selectedPageSize (marginSize s)
              (S (List.length rest)) rest 1%nat
              {| pdf := pdf1; processedImages := 1 |})
    as (calls & st' & -> & Hp & Hr & Hm & Hf & Hs).
  { lia. }
  { intros j Hj. apply Hctx. cbn [List.length]. lia. }
  { intros image' Hin. apply Hload. right. exact Hin. }
  cbn [pdf processedImages] in Hp, Hr, Hm.
  exists selectedPageSize. eexists. split; [reflexivity|].
  split; [reflexivity|].
  split.
  { cbn [app saved]. rewrite saved_app, Hs. cbn [app saved map].
    rewrite Hp, Hpages. reflexivity. }
  split.
  { cbn [app reported]. rewrite reported_app, Hr. cbn [reported seq map].
    rewrite app_nil_r. reflexivity. }
  split.
  { cbn [app seq map combine]. cbn [milestones].
    rewrite milestones_before_save. cbn [milestones]. rewrite app_nil_r.
    destruct calls as [|c calls]; cbn [milestones]; rewrite Hd, <- Hm;
      reflexivity. }
  cbn [app filter is_addPage]. rewrite filter_app, Hf, length_app.
  cbn [filter is_addPage List.length]. rewrite repeat_length. lia.
Qed.

(** C5, amended. For a non-empty list of [n] images, a page size of the
    table and a run in which every iteration obtains a 2D context and every
    image loads with a positive width and height, [convertToPdf] saves a
    document of exactly [n] pages, the [i]-th page holds the [i]-th image at
    its placement, and a page is added for every image but the first. *)
Theorem convertToPdf_pages (env : Env) (s : State) :
  images s <> [] -> favourable env s -> one_page_per_image env s.
Proof.
  intros Hne Hfav.
  destruct (convertToPdf_favourable env s Hne Hfav)
    as (selectedPageSize & calls & Hsel & Hrun & Hsaved & _ & _ & Hadd).
  exists calls. eexists. split; [exact Hrun|]. split; [exact Hsaved|].
  split; [apply length_map|]. split; [|exact Hadd].
  intros i image Hnth.
  exists selectedPageSize, (sizeOf env image). split; [exact Hsel|].
  split.
  - destruct Hfav as (_ & _ & Hload & _).
    apply naturalSize_sizeOf, Hload, (nth_error_In _ _ Hnth).
  - rewrite nth_error_map, Hnth. reflexivity.
Qed.

Lemma convertToPdf_pages_witness :
  images sample_state <> [] /\
  favourable cooperative sample_state /\
  one_page_per_image cooperative sample_state.
Proof.
  assert (Hne : images sample_state <> []) by discriminate.
  assert (Hfav : favourable cooperative sample_state).
  { split; [simpl; tauto|]. split; [reflexivity|].
    split; [intros image _; discriminate|].
    intros image size _ Hsize. simpl in Hsize. injection Hsize as <-.
    split; reflexivity. }
  split; [exact Hne|]. split; [exact Hfav|].
  exact (convertToPdf_pages cooperative sample_state Hne Hfav).
Defined.

(** C5 as stated fails: when the second iteration obtains no 2D context,
    the run over two images returns after saving a document of one page. *)
Lemma convertToPdf_pages_skipped :
  images sample_state <> [] /\
  In (pageSize sample_state) (map fst pageSizes) /\
  snd (convertToPdf no_second_context sample_state) = Returned /\
  map (@List.length jsPDF.Page)
      (saved (fst (convertToPdf no_second_context sample_state))) = [1%nat] /\
  map fst (milestones (fst (convertToPdf no_second_context sample_state))) =
    ["blob:a"] /\
  ~ one_page_per_image no_second_context sample_state.
Proof.
  split; [discriminate|]. split; [simpl; tauto|].
  split; [reflexivity|]. split; [reflexivity|]. split; [reflexivity|].
  intros (calls & document & Hrun & Hsaved & Hlen & _).
  vm_compute in Hrun. injection Hrun as <-.
  cbn [saved] in Hsaved. injection Hsaved as <-.
  discriminate Hlen.
Qed.

(** C6. On an empty image list [convertToPdf] returns at once: it makes no
    call at all, so it creates no document, adds no page and saves
    nothing. *)
Theorem convertToPdf_empty (env : Env) (s : State) :
  images s = [] ->
  convertToPdf env s = ([], Returned) /\
  saved (fst (convertToPdf env s)) = [] /\
  filter to_jsPDF (fst (convertToPdf env s)) = [].
Proof.
  intros Hnil. unfold convertToPdf. rewrite Hnil. repeat split.
Qed.

Lemma convertToPdf_empty_witness :
  images initialState = [] /\
  convertToPdf cooperative initialState = ([], Returned) /\
  saved (fst (convertToPdf cooperative initialState)) = [] /\
  filter to_jsPDF (fst (convertToPdf cooperative initialState)) = [].
Proof.
  split; [reflexivity|].
  apply (convertToPdf_empty cooperative initialState). reflexivity.
Defined.

(** ** Progress *)

Lemma toNumber_lt j k : (j < k)%nat -> toNumber j < toNumber k.
Proof. intros H. unfold toNumber. rewrite <- Zlt_Qlt. lia. Qed.

Lemma toNumber_positive n : (0 < n)%nat -> 0 < toNumber n.
Proof. intros Hn. apply (toNumber_lt 0 n Hn). Qed.

Lemma share_scaled n k :
  (0 < n)%nat -> share n k == toNumber k * (100 / toNumber n).
Proof.
  intros Hn. unfold share. pose proof (toNumber_positive n Hn). field. lra.
Qed.

Lemma share_lt n j k : (0 < n)%nat -> (j < k)%nat -> share n j < share n k.
Proof.
  intros Hn Hjk. rewrite !share_scaled by exact Hn.
  pose proof (toNumber_positive n Hn).
  apply Qmult_lt_compat_r; [|apply toNumber_lt, Hjk].
  apply Qlt_shift_div_l; lra.
Qed.

Lemma share_full n : (0 < n)%nat -> share n n == 100.
Proof.
  intros Hn. unfold share. pose proof (toNumber_positive n Hn). field. lra.
Qed.

Lemma share_none n : share n 0 == 0.
Proof. unfold share. change (toNumber 0) with 0. unfold Qdiv. ring. Qed.

Lemma share_bounds n k :
  (0 < n)%nat -> (k <= n)%nat -> 0 <= share n k /\ share n k <= 100.
Proof.
  intros Hn Hk. split.
  - rewrite <- (share_none n). destruct k as [|k]; [apply Qle_refl|].
    apply Qlt_le_weak, share_lt; lia.
  - rewrite <- (share_full n Hn).
    destruct (Nat.eq_dec k n) as [-> | Hne]; [apply Qle_refl|].
    apply Qlt_le_weak, share_lt; lia.
Qed.

Lemma shares_sorted n len :
  (0 < n)%nat ->
  forall a, StronglySorted Qlt (map (share n) (seq a len)).
Proof.
  intros Hn. induction len as [|len IH]; intros a; cbn [seq map];
    constructor; [apply IH|].
  apply Forall_map, Forall_forall. intros k Hk. apply in_seq in Hk.
  apply share_lt; lia.
Qed.

(** C9, amended. In a run over [n >= 1] images with a page size of the
    table, in which every iteration obtains a 2D context and every image
    loads with a positive width and height, the value reported right after the [k]-th image is placed is
    [k / n * 100]; the reported values increase strictly, lie in [0, 100],
    and the last one is 100. *)
Theorem convertToPdf_progress (env : Env) (s : State) :
  (1 <= List.length (images s))%nat -> favourable env s ->
  progress_by_image env s.
Proof.
  intros Hn Hfav.
  assert (Hne : images s <> []).
  { intros Hnil. rewrite Hnil in Hn. cbn in Hn. lia. }
  destruct (convertToPdf_favourable env s Hne Hfav)
    as (selectedPageSize & calls & _ & Hrun & _ & Hrep & Hmil & _).
  unfold progress_by_image. rewrite Hrun. cbn [fst]. rewrite Hrep, Hmil.
  set (n := List.length (images s)) in *.
  split.
  { intros k image Hnth. subst n.
    apply (nth_error_milestone (share (List.length (images s)))
             (images s) 1 k image Hnth). }
  split.
  { constructor; [apply shares_sorted; lia|].
    apply Forall_map, Forall_forall. intros k Hk. apply in_seq in Hk.
    rewrite <- (share_none n). apply share_lt; lia. }
  split.
  { constructor; [split; [apply Qle_refl | discriminate]|].
    apply Forall_map, Forall_forall. intros k Hk. apply in_seq in Hk.
    apply share_bounds; lia. }
  destruct n as [|m] eqn:En; [lia|].
  rewrite seq_S, map_app. cbn [map Nat.add].
  change (0 :: map (share (S m)) (seq 1 m) ++ [share (S m) (S m)])
    with ((0 :: map (share (S m)) (seq 1 m)) ++ [share (S m) (S m)]).
  rewrite last_last. apply share_full. lia.
Qed.

Lemma convertToPdf_progress_witness :
  (1 <= List.length (images sample_state))%nat /\
  favourable cooperative sample_state /\
  progress_by_image cooperative sample_state.
Proof.
  assert (Hn : (1 <= List.length (images sample_state))%nat) by (simpl; lia).
  assert (Hfav : favourable cooperative sample_state).
  { split; [simpl; tauto|]. split; [reflexivity|].
    split; [intros image _; discriminate|].
    intros image size _ Hsize. simpl in Hsize. injection Hsize as <-.
    split; reflexivity. }
  split; [exact Hn|]. split; [exact Hfav|].
  exact (convertToPdf_progress cooperative sample_state Hn Hfav).
Defined.

(** C9 as stated fails: when the second iteration obtains no 2D context,
    the run over two images reports 0 and 50 and never 100. *)
Lemma convertToPdf_progress_skipped :
  (1 <= List.length (images sample_state))%nat /\
  snd (convertToPdf no_second_context sample_state) = Returned /\
  Forall2 Qeq (reported (fst (convertToPdf no_second_context sample_state)))
    [0; 50] /\
  ~ progress_by_image no_second_context sample_state.
Proof.
  split; [simpl; lia|]. split; [reflexivity|].
  split; [repeat constructor|].
  intros (_ & _ & _ & Hlast).
  vm_compute in Hlast. discriminate Hlast.
Qed.

(** * Further properties *)

(** ** The drawn rectangle *)

(** The fit of a rectangle [ew] x [eh] into an area [AW] x [AH]. *)
Lemma placement_formula (w h : Q) (r : Z) (PW PH margin ew eh : Q) :
  effective w h r = (ew, eh) ->
  let p := computePlacement w h r PW PH margin in
  let scale :=
    Qmin (PW * (1 - margin / 100 * 2) / ew) (PH * (1 - margin / 100 * 2) / eh) in
  canvas_width p = ew /\ canvas_height p = eh /\ ratio p = scale /\
  imgWidth p = ew * scale /\ imgHeight p = eh * scale /\
  x p = (PW - ew * scale) / 2 /\ y p = (PH - eh * scale) / 2.
Proof.
  intros He. unfold computePlacement. rewrite He. cbn. repeat split.
Qed.




Lemma percent (margin : Q) : margin / 100 == margin * (1 # 100).
Proof. reflexivity. Qed.









(** X4. A larger margin never enlarges the image: the ratio and the drawn
    width and height do not grow, and the offsets do not shrink. *)
Theorem placement_margin_monotone (w h : Q) (r : Z) (PW PH m1 m2 : Q) :
  0 < w -> 0 < h -> 0 < PW -> 0 < PH -> m1 <= m2 ->
  let p1 := computePlacement w h r PW PH m1 in
  let p2 := computePlacement w h r PW PH m2 in
  ratio p2 <= ratio p1 /\
  imgWidth p2 <= imgWidth p1 /\ imgHeight p2 <= imgHeight p1 /\
  x p1 <= x p2 /\ y p1 <= y p2.
Proof.
  intros Hw Hh HPW HPH Hm. cbv zeta.
  destruct (effective w h r) as [ew eh] eqn:He.
  destruct (effective_positive w h r ew eh He Hw Hh) as [Hew Heh].
  destruct (placement_formula w h r PW PH m1 ew eh He)
    as (_ & _ & -> & -> & -> & -> & ->).
  destruct (placement_formula w h r PW PH m2 ew eh He)
    as (_ & _ & -> & -> & -> & -> & ->).
  assert (Hk : 1 - m2 / 100 * 2 <= 1 - m1 / 100 * 2)
    by (rewrite !percent; lra).
  assert (Hs : Qmin (PW * (1 - m2 / 100 * 2) / ew) (PH * (1 - m2 / 100 * 2) / eh)
               <= Qmin (PW * (1 - m1 / 100 * 2) / ew)
                       (PH * (1 - m1 / 100 * 2) / eh)).
  { apply Q.min_le_compat; unfold Qdiv;
      (apply Qmult_le_compat_r;
       [|apply Qlt_le_weak, Qinv_lt_0_compat; assumption]);
      [rewrite !(Qmult_comm PW) | rewrite !(Qmult_comm PH)];
      (apply Qmult_le_compat_r; [exact Hk | lra]). }
  set (s1 := Qmin (PW * (1 - m1 / 100 * 2) / ew) (PH * (1 - m1 / 100 * 2) / eh)) in *.
  set (s2 := Qmin (PW * (1 - m2 / 100 * 2) / ew) (PH * (1 - m2 / 100 * 2) / eh)) in *.
  assert (Hsw : ew * s2 <= ew * s1)
    by (rewrite !(Qmult_comm ew); apply Qmult_le_compat_r; lra).
  assert (Hsh : eh * s2 <= eh * s1)
    by (rewrite !(Qmult_comm eh); apply Qmult_le_compat_r; lra).
  repeat split; try assumption;
    unfold Qdiv; apply Qmult_le_compat_r; try lra; discriminate.
Qed.

Lemma placement_margin_monotone_witness :
  let p1 := computePlacement 800 600 0 215.9 279.4 5 in
  let p2 := computePlacement 800 600 0 215.9 279.4 20 in
  ratio p2 <= ratio p1 /\
  imgWidth p2 <= imgWidth p1 /\ imgHeight p2 <= imgHeight p1 /\
  x p1 <= x p2 /\ y p1 <= y p2.
Proof.
  apply (placement_margin_monotone 800 600 0 215.9 279.4 5 20);
    try reflexivity; lra.
Defined.

(** ** Editing the image list *)

Lemma turn_id id0 direction image : id (turn id0 direction image) = id image.
Proof. apply turn_keeps. Qed.

Lemma turn_back id0 direction image :
  quarter_turn (rotation image) ->
  turn id0 (opposite direction) (turn id0 direction image) = image.
Proof.
  intros Hq. unfold turn at 2.
  destruct (String.eqb (id image) id0) eqn:E.
  - unfold turn. cbn [id]. rewrite E. destruct image as [i f p rot].
    cbn [id file preview rotation] in *. f_equal.
    destruct direction, Hq as [<- | [<- | [<- | [<- | []]]]]; reflexivity.
  - unfold turn. rewrite E. reflexivity.
Qed.

Lemma turn_four id0 direction image :
  quarter_turn (rotation image) ->
  turn id0 direction (turn id0 direction
    (turn id0 direction (turn id0 direction image))) = image.
Proof.
  intros Hq. unfold turn at 4.
  destruct (String.eqb (id image) id0) eqn:E.
  - unfold turn. cbn [id]. rewrite !E. cbn [id]. rewrite !E. cbn [id].
    rewrite E. destruct image as [i f p rot].
    cbn [id file preview rotation] in *. f_equal.
    destruct direction, Hq as [<- | [<- | [<- | [<- | []]]]]; reflexivity.
  - unfold turn. rewrite !E. reflexivity.
Qed.

Lemma turn_commute a da b db image :
  quarter_turn (rotation image) ->
  turn a da (turn b db image) = turn b db (turn a da image).
Proof.
  intros Hq. unfold turn at 2 4.
  destruct (String.eqb (id image) a) eqn:Ea,
           (String.eqb (id image) b) eqn:Eb;
    unfold turn; cbn [id]; rewrite ?Ea, ?Eb; try reflexivity.
  cbn [id file preview rotation]. f_equal.
  destruct da, db, Hq as [<- | [<- | [<- | [<- | []]]]]; reflexivity.
Qed.

Lemma map_fixes {A : Type} (f : A -> A) (l : list A) :
  (forall a, In a l -> f a = a) -> map f l = l.
Proof.
  intros Hf. rewrite <- (map_id l) at 2. apply map_ext_in, Hf.
Qed.

Lemma removeImage_ids id0 imgs :
  map id (removeImage id0 imgs) =
  filter (fun i => negb (String.eqb i id0)) (map id imgs).
Proof.
  unfold removeImage. induction imgs as [|image imgs IH]; [reflexivity|].
  cbn [map filter]. destruct (negb (String.eqb (id image) id0));
    cbn [map]; rewrite IH; reflexivity.
Qed.

Lemma rotateImage_ids id0 direction imgs :
  map id (rotateImage id0 direction imgs) = map id imgs.
Proof.
  rewrite rotateImage_map, map_map. apply map_ext. intros. apply turn_id.
Qed.

Lemma removeImage_absent id0 imgs :
  ~ In id0 (map id imgs) -> removeImage id0 imgs = imgs.
Proof.
  intros Habsent. unfold removeImage.
  induction imgs as [|image imgs IH]; [reflexivity|].
  cbn [filter]. destruct (String.eqb_spec (id image) id0) as [Heq | Hne].
  - exfalso. apply Habsent. left. exact Heq.
  - cbn [negb]. f_equal. apply IH. intros Hin. apply Habsent. right. exact Hin.
Qed.

Lemma rotateImage_absent id0 direction imgs :
  ~ In id0 (map id imgs) -> rotateImage id0 direction imgs = imgs.
Proof.
  intros Habsent. rewrite rotateImage_map. apply map_fixes.
  intros image Hin. apply turn_other. intros Heq. apply Habsent.
  rewrite <- Heq. apply in_map, Hin.
Qed.

(** X5. On a list whose rotations are quarter turns, a rotation followed
    by the opposite rotation of the same id gives the list back, and so do
    four rotations in the same direction. *)
Theorem rotateImage_round_trip (id0 : string) (direction : Direction)
  (imgs : list ImageFile) :
  quarter_turns imgs ->
  rotateImage id0 (opposite direction) (rotateImage id0 direction imgs) = imgs /\
  rotateImage id0 direction (rotateImage id0 direction
    (rotateImage id0 direction (rotateImage id0 direction imgs))) = imgs.
Proof.
  intros Hq. unfold quarter_turns in Hq. rewrite Forall_forall in Hq.
  rewrite !rotateImage_map, !map_map. split; apply map_fixes; intros image Hin.
  - apply turn_back, Hq, Hin.
  - apply turn_four, Hq, Hin.
Qed.

Lemma rotateImage_round_trip_witness :
  quarter_turns (images sample_state) /\
  rotateImage "b" (opposite clockwise)
    (rotateImage "b" clockwise (images sample_state)) = images sample_state /\
  rotateImage "b" clockwise (rotateImage "b" clockwise
    (rotateImage "b" clockwise (rotateImage "b" clockwise
      (images sample_state)))) = images sample_state.
Proof.
  assert (Hq : quarter_turns (images sample_state)).
  { apply Forall_cons; [vm_compute; tauto|].
    apply Forall_cons; [vm_compute; tauto | apply Forall_nil]. }
  split; [exact Hq|].
  exact (rotateImage_round_trip "b" clockwise (images sample_state) Hq).
Defined.

(** X6. On a list whose rotations are quarter turns, two rotations commute,
    whatever their ids and directions. *)
Theorem rotateImage_commute (a : string) (da : Direction) (b : string)
  (db : Direction) (imgs : list ImageFile) :
  quarter_turns imgs ->
  rotateImage a da (rotateImage b db imgs) =
  rotateImage b db (rotateImage a da imgs).
Proof.
  intros Hq. unfold quarter_turns in Hq. rewrite Forall_forall in Hq.
  rewrite !rotateImage_map, !map_map. apply map_ext_in. intros image Hin.
  apply turn_commute, Hq, Hin.
Qed.

Lemma rotateImage_commute_witness :
  quarter_turns (images sample_state) /\
  rotateImage "a" clockwise
    (rotateImage "b" counterclockwise (images sample_state)) =
  rotateImage "b" counterclockwise
    (rotateImage "a" clockwise (images sample_state)).
Proof.
  assert (Hq : quarter_turns (images sample_state)).
  { apply Forall_cons; [vm_compute; tauto|].
    apply Forall_cons; [vm_compute; tauto | apply Forall_nil]. }
  split; [exact Hq|].
  exact (rotateImage_commute "a" clockwise "b" counterclockwise
           (images sample_state) Hq).
Defined.

(** X7. [removeImage] keeps exactly the records with another id, in their
    order (it distributes over concatenation); it never lengthens the list,
    leaves a list without the id unchanged, and removing twice is removing
    once. *)
Theorem removeImage_exactly (id0 : string) (imgs : list ImageFile) :
  (forall image,
     In image (removeImage id0 imgs) <-> In image imgs /\ id image <> id0) /\
  (forall front back,
     imgs = front ++ back ->
     removeImage id0 imgs = removeImage id0 front ++ removeImage id0 back) /\
  (List.length (removeImage id0 imgs) <= List.length imgs)%nat /\
  (~ In id0 (map id imgs) -> removeImage id0 imgs = imgs) /\
  removeImage id0 (removeImage id0 imgs) = removeImage id0 imgs.
Proof.
  split.
  { intros image. unfold removeImage. rewrite filter_In, negb_true_iff.
    split; intros [Hin Hne]; split; try exact Hin.
    - intros Heq. apply String.eqb_eq in Heq. congruence.
    - apply String.eqb_neq, Hne. }
  split; [intros front back ->; apply filter_app|].
  split; [apply filter_length_le|].
  split; [apply removeImage_absent|].
  apply removeImage_absent. rewrite removeImage_ids.
  intros Hin. apply filter_In in Hin. destruct Hin as [_ Hne].
  rewrite String.eqb_refl in Hne. discriminate Hne.
Qed.

(** X8. Removing one id and rotating another (or the same) commute. *)
Theorem removeImage_rotateImage (a b : string) (direction : Direction)
  (imgs : list ImageFile) :
  removeImage a (rotateImage b direction imgs) =
  rotateImage b direction (removeImage a imgs).
Proof.
  rewrite !rotateImage_map. unfold removeImage.
  induction imgs as [|image imgs IH]; [reflexivity|].
  cbn [map filter]. rewrite turn_id, IH.
  destruct (negb (String.eqb (id image) a)); reflexivity.
Qed.

(** X9. When the ids of the list are pairwise distinct they stay so under
    [rotateImage] and [removeImage], and an id of the list names exactly one
    record: [removeImage] takes out that record and [rotateImage] turns that
    record, everything before and after it staying in place. *)
Theorem distinct_ids (id0 : string) (direction : Direction)
  (imgs : list ImageFile) :
  NoDup (map id imgs) ->
  NoDup (map id (rotateImage id0 direction imgs)) /\
  NoDup (map id (removeImage id0 imgs)) /\
  (In id0 (map id imgs) ->
   exists front image back,
     imgs = front ++ image :: back /\ id image = id0 /\
     removeImage id0 imgs = front ++ back /\
     rotateImage id0 direction imgs =
       front ++ turn id0 direction image :: back).
Proof.
  intros Hnodup. split; [rewrite rotateImage_ids; exact Hnodup|].
  split; [rewrite removeImage_ids; apply NoDup_filter, Hnodup|].
  intros Hin. apply in_map_iff in Hin. destruct Hin as (image & Hid & Hin).
  apply in_split in Hin. destruct Hin as (front & back & ->).
  exists front, image, back. split; [reflexivity|]. split; [exact Hid|].
  rewrite map_app in Hnodup. cbn [map] in Hnodup. rewrite Hid in Hnodup.
  pose proof (NoDup_remove_2 _ _ _ Hnodup) as Hnot.
  assert (Hfront : ~ In id0 (map id front))
    by (intros H; apply Hnot, in_or_app; left; exact H).
  assert (Hback : ~ In id0 (map id back))
    by (intros H; apply Hnot, in_or_app; right; exact H).
  split.
  - unfold removeImage. rewrite filter_app. cbn [filter].
    rewrite Hid, String.eqb_refl. cbn [negb].
    fold (removeImage id0 front). fold (removeImage id0 back).
    rewrite (removeImage_absent id0 front Hfront).
    rewrite (removeImage_absent id0 back Hback). reflexivity.
  - rewrite rotateImage_map, map_app. cbn [map].
    rewrite <- !rotateImage_map.
    rewrite (rotateImage_absent id0 direction front Hfront).
    rewrite (rotateImage_absent id0 direction back Hback). reflexivity.
Qed.

Lemma distinct_ids_witness :
  NoDup (map id (images sample_state)) /\
  NoDup (map id (rotateImage "b" clockwise (images sample_state))) /\
  NoDup (map id (removeImage "b" (images sample_state))) /\
  (In "b" (map id (images sample_state)) ->
   exists front image back,
     images sample_state = front ++ image :: back /\ id image = "b" /\
     removeImage "b" (images sample_state) = front ++ back /\
     rotateImage "b" clockwise (images sample_state) =
       front ++ turn "b" clockwise image :: back).
Proof.
  assert (Hnodup : NoDup (map id (images sample_state))).
  { simpl. apply NoDup_cons; [intros [H | []]; discriminate H|].
    apply NoDup_cons; [intros [] | apply NoDup_nil]. }
  split; [exact Hnodup|].
  exact (distinct_ids "b" clockwise (images sample_state) Hnodup).
Defined.

Lemma from_drop_more pool more image :
  from_drop pool image -> from_drop (pool ++ more) image.
Proof.
  intros (a & Hin & H). exists a. split; [apply in_or_app; left; exact Hin | exact H].
Qed.

Lemma act_from_drop imgs pool a :
  Forall (from_drop pool) imgs ->
  Forall (from_drop (pool ++ dropped [a])) (act imgs a).
Proof.
  intros Himgs.
  assert (Hold : Forall (from_drop (pool ++ dropped [a])) imgs).
  { eapply Forall_impl; [|exact Himgs]. intros image. apply from_drop_more. }
  rewrite Forall_forall in Hold.
  apply Forall_forall. intros image Hin.
  destruct a as [acceptedFiles | id0 direction | id0 | ]; cbn [act] in Hin.
  - unfold onDrop in Hin. apply in_app_or in Hin.
    destruct Hin as [Hin | Hin]; [apply Hold, Hin|].
    apply in_map_iff in Hin. destruct Hin as (a & <- & Hin).
    exists a. split; [|repeat split].
    apply in_or_app. right. cbn [dropped]. rewrite app_nil_r. exact Hin.
  - rewrite rotateImage_map in Hin. apply in_map_iff in Hin.
    destruct Hin as (image0 & <- & Hin).
    destruct (Hold image0 Hin) as (a & Ha & Hi & Hf & Hp).
    destruct (turn_keeps id0 direction image0) as (Ei & Ef & Ep).
    exists a. rewrite Ei, Ef, Ep. auto.
  - unfold removeImage in Hin. apply filter_In in Hin. apply Hold, Hin.
  - destruct Hin.
Qed.

Lemma act_length imgs a :
  (List.length (act imgs a) <= List.length imgs + List.length (dropped [a]))%nat.
Proof.
  destruct a as [acceptedFiles | id0 direction | id0 | ]; cbn [act dropped].
  - unfold onDrop. rewrite length_app, length_map, app_nil_r. lia.
  - rewrite rotateImage_map, length_map. lia.
  - unfold removeImage. pose proof (filter_length_le
      (fun image => negb (String.eqb (id image) id0)) imgs). lia.
  - cbn. lia.
Qed.

Lemma dropped_cons a actions : dropped (a :: actions) = dropped [a] ++ dropped actions.
Proof. destruct a; cbn [dropped]; rewrite ?app_nil_r; reflexivity. Qed.

Lemma fold_act_from_drop actions :
  forall imgs pool,
    Forall (from_drop pool) imgs ->
    Forall (from_drop (pool ++ dropped actions)) (fold_left act actions imgs) /\
    (List.length (fold_left act actions imgs) <=
     List.length imgs + List.length (dropped actions))%nat.
Proof.
  induction actions as [|a actions IH]; intros imgs pool Himgs.
  - cbn [fold_left dropped]. rewrite app_nil_r. split; [exact Himgs | lia].
  - cbn [fold_left]. rewrite dropped_cons, app_assoc, length_app.
    destruct (IH (act imgs a) (pool ++ dropped [a])
                (act_from_drop imgs pool a Himgs)) as [Hfrom Hlen].
    split; [exact Hfrom|]. pose proof (act_length imgs a). lia.
Qed.

(** X10. After any sequence of user actions from the empty list, every
    record of the list carries the id, file and preview that [onDrop] made
    for one of the dropped files, and the list holds no more records than
    files were dropped. *)
Theorem session_provenance (actions : list Action) :
  Forall (from_drop (dropped actions)) (session actions) /\
  (List.length (session actions) <= List.length (dropped actions))%nat.
Proof.
  destruct (fold_act_from_drop actions [] [] (Forall_nil _)) as [Hfrom Hlen].
  split; [exact Hfrom | exact Hlen].
Qed.

(** ** Runs of [convertToPdf] in any browser *)


(** One iteration of the loop. *)
Lemma loop_cons env selectedPageSize margin totalImages i image rest st :
  loop env selectedPageSize margin totalImages i (image :: rest) st =
  if getContext env i then
    match naturalSize env (preview image) with
    | None => ([], st, Pending)
    | Some size =>
        let step := onload selectedPageSize margin totalImages i image size st in
        let after :=
          loop env selectedPageSize margin totalImages (S i) rest (snd step) in
        (fst step ++ fst (fst after), snd (fst after), snd after)
    end
  else loop env selectedPageSize margin totalImages (S i) rest st.
Proof.
  cbn [loop]. destruct (getContext env i); cbn [negb]; [|reflexivity].
  destruct (naturalSize env (preview image)) as [size|]; [|reflexivity].
  destruct (onload selectedPageSize margin totalImages i image size st)
    as [calls1 st1]. cbn [fst snd].
  destruct (loop env selectedPageSize margin totalImages (S i) rest st1)
    as [[calls2 st2] o]. reflexivity.
Qed.

Lemma onload_calls selectedPageSize margin totalImages i image size st :
  Forall (fun c => in_loop c = true)
    (fst (onload selectedPageSize margin totalImages i image size st)) /\
  reported (fst (onload selectedPageSize margin totalImages i image size st)) =
    [share totalImages (S (processedImages st))] /\
  processedImages (snd (onload selectedPageSize margin totalImages i image size st)) =
    S (processedImages st).
Proof.
  unfold onload. cbn [fst snd processedImages].
  destruct (0 <? i)%nat; cbn [app reported]; repeat constructor.
Qed.


(** The loop makes no other calls than [addPage], [addImage] and
    [setProgress]. *)
Lemma loop_calls env selectedPageSize margin totalImages rest :
  forall i st,
    Forall (fun c => in_loop c = true)
      (fst (fst (loop env selectedPageSize margin totalImages i rest st))).
Proof.
  induction rest as [|image rest IH]; intros i st; [constructor|].
  rewrite loop_cons. destruct (getContext env i); [|apply IH].
  destruct (naturalSize env (preview image)) as [size|]; [|constructor].
  cbn [fst snd]. apply Forall_app. split; [apply onload_calls | apply IH].
Qed.

(** The loop returns when every visited image loads and waits otherwise. *)
Lemma loop_outcome env selectedPageSize margin totalImages rest :
  forall i st,
    snd (loop env selectedPageSize margin totalImages i rest st) =
      if forallb (loads env) (visited env i rest) then Returned else Pending.
Proof.
  induction rest as [|image rest IH]; intros i st; [reflexivity|].
  rewrite loop_cons. cbn [visited]. destruct (getContext env i); [|apply IH].
  cbn [forallb]. unfold loads at 1.
  destruct (naturalSize env (preview image)) as [size|]; [|reflexivity].
  cbn [snd andb]. apply IH.
Qed.


Lemma forallb_false {A : Type} (f : A -> bool) (l : list A) :
  forallb f l = false <-> exists a, In a l /\ f a = false.
Proof.
  induction l as [|a l IH]; cbn [forallb In].
  - split; [discriminate | intros (a & [] & _)].
  - rewrite andb_false_iff, IH. split.
    + intros [Ha | (b & Hin & Hb)]; eauto.
    + intros (b & [<- | Hin] & Hb); eauto.
Qed.

Lemma visited_In env rest :
  forall i image, In image (visited env i rest) -> In image rest.
Proof.
  induction rest as [|image0 rest IH]; intros i image Hin; [exact Hin|].
  cbn [visited] in Hin. destruct (getContext env i).
  - destruct Hin as [<- | Hin]; [left; reflexivity | right; eauto].
  - right. eauto.
Qed.

(** The loop from a later iteration on, when every visited image loads:
    the skipped images leave no trace. *)
Lemma loop_visited env selectedPageSize margin totalImages rest :
  forall i st,
    (0 < i)%nat ->
    (forall image, In image (visited env i rest) ->
                   naturalSize env (preview image) <> None) ->
    exists calls st',
      loop env selectedPageSize margin totalImages i rest st =
        (calls, st', Returned) /\
      jsPDF.pages (pdf st') =
        jsPDF.pages (pdf st) ++
        map (fun image => pageOf selectedPageSize margin image (sizeOf env image))
            (visited env i rest) /\
      reported calls =
        map (share totalImages)
            (seq (S (processedImages st)) (List.length (visited env i rest))) /\
      milestones calls =
        combine (map preview (visited env i rest))
                (map (share totalImages)
                     (seq (S (processedImages st))
                          (List.length (visited env i rest)))) /\
      List.length (filter is_addPage calls) =
        List.length (visited env i rest).
Proof.
  induction rest as [|image rest IH]; intros i st Hi Hload.
  - exists [], st. cbn. rewrite app_nil_r. repeat split.
  - cbn [loop visited] in *. destruct (getContext env i); cbn [negb].
    + rewrite (naturalSize_sizeOf env image (Hload image (or_introl eq_refl))).
      destruct (onload_later selectedPageSize margin totalImages
                  i image (sizeOf env image) st Hi)
        as (d & x0 & y0 & w & h & pdf1 & -> & Hd & Hpages).
      destruct (IH (S i)
                  {| pdf := pdf1; processedImages := S (processedImages st) |})
        as (calls & st' & -> & Hp & Hr & Hm & Hf).
      * lia.
      * intros image' Hin. apply Hload. right. exact Hin.
      * cbn [pdf processedImages] in Hp, Hr, Hm.
        eexists _, st'. split; [reflexivity|].
        split; [rewrite Hp, Hpages, <- app_assoc; reflexivity|].
        split; [cbn [app reported List.length seq map]; rewrite Hr; reflexivity|].
        split.
        { cbn [app List.length seq map combine milestones].
          destruct calls as [|c calls]; cbn [milestones]; rewrite Hd, <- Hm;
            reflexivity. }
        cbn [app filter is_addPage List.length]. rewrite Hf. reflexivity.
    + apply IH; [lia | exact Hload].
Qed.

(** [convertToPdf] in terms of its loop. *)
Lemma convertToPdf_loop env s selectedPageSize :
  images s <> [] ->
  lookup (pageSize s) pageSizes = Some selectedPageSize ->
  let run :=
    loop env selectedPageSize (marginSize s) (List.length (images s)) 0
      (images s)
      {| pdf := jsPDF.new (format selectedPageSize); processedImages := 0 |} in
  convertToPdf env s =
    match snd run with
    | Returned =>
        ([setConverting true; setProgress 0; new_jsPDF (format selectedPageSize)]
         ++ fst (fst run) ++
         [ pdf_save "converted-images.pdf" (jsPDF.pages (pdf (snd (fst run))));
           setConverting false ],
         Returned)
    | o =>
        ([setConverting true; setProgress 0; new_jsPDF (format selectedPageSize)]
         ++ fst (fst run),
         o)
    end.
Proof.
  intros Hne Hsel. unfold convertToPdf. rewrite Hsel.
  destruct (images s) as [|image rest]; [congruence|].
  cbn [List.length Nat.eqb].
  destruct (loop env selectedPageSize (marginSize s) (S (List.length rest)) 0
              (image :: rest)
              {| pdf := jsPDF.new (format selectedPageSize);
                 processedImages := 0 |}) as [[calls st] o].
  cbn [fst snd]. destruct o; reflexivity.
Qed.

Lemma in_loop_quiet calls :
  Forall (fun c => in_loop c = true) calls ->
  saved calls = [] /\ forall b, ~ In (setConverting b) calls.
Proof.
  induction 1 as [|c calls Hc _ [IHs IHn]]; [split; [reflexivity | intros b []]|].
  destruct c; try discriminate Hc; cbn [saved]; (split; [exact IHs|]);
    intros b [Heq | Hin]; try discriminate Heq; exact (IHn b Hin).
Qed.


Lemma lookup_absent key table :
  ~ In key (map fst table) -> lookup key table = None.
Proof.
  induction table as [|[k v] table IH]; cbn [map fst In lookup];
    [reflexivity|].
  intros Hnot. destruct (String.eqb_spec k key) as [Heq | Hne].
  - exfalso. apply Hnot. left. exact Heq.
  - apply IH. intros Hin. apply Hnot. right. exact Hin.
Qed.

(** X11. For a selected page size that is no inherited property name,
    [convertToPdf] throws exactly when the list is not empty and the page
    size is not a key of the table; it has then set the converting flag and
    the progress 0 and made no other call: no document is created and the
    flag is not reset. *)
Theorem convertToPdf_throws (env : Env) (s : State) :
  ~ In (pageSize s) inherited ->
  (snd (convertToPdf env s) = TypeError <->
   images s <> [] /\ ~ In (pageSize s) (map fst pageSizes)) /\
  (images s <> [] -> ~ In (pageSize s) (map fst pageSizes) ->
   convertToPdf env s = ([setConverting true; setProgress 0], TypeError)).
Proof.
  intros _. split.
  - destruct (images s) as [|image rest] eqn:Himages.
    + unfold convertToPdf. rewrite Himages. cbn.
      split; [discriminate | intros [[] _]; reflexivity].
    + destruct (lookup (pageSize s) pageSizes) as [sel|] eqn:Hsel.
      * assert (Hne : images s <> []) by congruence.
        rewrite (convertToPdf_loop env s sel Hne Hsel). cbv zeta.
        rewrite loop_outcome.
        assert (Hkey : ~ ~ In (pageSize s) (map fst pageSizes)).
        { intros Hnot. rewrite (lookup_absent _ _ Hnot) in Hsel.
          discriminate Hsel. }
        destruct (forallb (loads env) (visited env 0 (images s)));
          cbn [snd]; split; try discriminate; intros [_ H]; contradiction.
      * unfold convertToPdf. rewrite Himages, Hsel. cbn.
        split; [|reflexivity]. intros _. split; [discriminate|].
        intros Hin. destruct (lookup_In (pageSize s) pageSizes Hin) as [v Hv].
        congruence.
  - intros Hne Hnot. unfold convertToPdf. rewrite (lookup_absent _ _ Hnot).
    destruct (images s); [congruence | reflexivity].
Qed.

Lemma convertToPdf_throws_witness :
  ~ In (pageSize unknown_size_state) inherited /\
  (snd (convertToPdf cooperative unknown_size_state) = TypeError <->
   images unknown_size_state <> [] /\
   ~ In (pageSize unknown_size_state) (map fst pageSizes)) /\
  (images unknown_size_state <> [] ->
   ~ In (pageSize unknown_size_state) (map fst pageSizes) ->
   convertToPdf cooperative unknown_size_state =
     ([setConverting true; setProgress 0], TypeError)).
Proof.
  assert (Hkey : ~ In (pageSize unknown_size_state) inherited).
  { simpl. intros H. repeat (destruct H as [H | H]; [discriminate H|]).
    exact H. }
  split; [exact Hkey|].
  exact (convertToPdf_throws cooperative unknown_size_state Hkey).
Defined.

(** X12. With a page size of the table and images that, when they load,
    have a positive width and height, [convertToPdf] waits for ever exactly
    when some image whose iteration obtains a 2D context never loads; it
    has then set the converting flag, never resets it and saves nothing. *)
Theorem convertToPdf_waits (env : Env) (s : State) :
  In (pageSize s) (map fst pageSizes) ->
  positive_sizes env (images s) ->
  (snd (convertToPdf env s) = Pending <->
   exists image,
     In image (visited env 0 (images s)) /\
     naturalSize env (preview image) = None) /\
  (snd (convertToPdf env s) = Pending ->
   In (setConverting true) (fst (convertToPdf env s)) /\
   ~ In (setConverting false) (fst (convertToPdf env s)) /\
   saved (fst (convertToPdf env s)) = []).
Proof.
  intros Hkey _. destruct (lookup_In _ _ Hkey) as [sel Hsel].
  destruct (images s) as [|image0 rest] eqn:Himages.
  { unfold convertToPdf. rewrite Himages. cbn.
    split; [split; [discriminate | intros (image & [] & _)] | discriminate]. }
  assert (Hne : images s <> []) by congruence.
  rewrite (convertToPdf_loop env s sel Hne Hsel). cbv zeta.
  rewrite loop_outcome, Himages.
  pose proof (loop_calls env sel (marginSize s) (List.length (image0 :: rest))
                (image0 :: rest) 0
                {| pdf := jsPDF.new (format sel); processedImages := 0 |})
    as Hcalls.
  destruct (in_loop_quiet _ Hcalls) as [Hsaved Hquiet].
  destruct (forallb (loads env) (visited env 0 (image0 :: rest))) eqn:Hall;
    cbn [fst snd].
  - split; [|discriminate]. split; [discriminate|].
    intros (image & Hin & Hnone). rewrite forallb_forall in Hall.
    specialize (Hall image Hin). unfold loads in Hall. rewrite Hnone in Hall.
    discriminate.
  - split.
    + split; [intros _ | reflexivity].
      apply forallb_false in Hall. destruct Hall as (image & Hin & Hl).
      exists image. split; [exact Hin|]. unfold loads in Hl.
      destruct (naturalSize env (preview image)); [discriminate | reflexivity].
    + intros _. split; [left; reflexivity|]. split.
      * cbn [app]. intros [H | [H | [H | H]]]; try discriminate.
        exact (Hquiet false H).
      * cbn [app saved]. exact Hsaved.
Qed.

Lemma convertToPdf_waits_witness :
  In (pageSize sample_state) (map fst pageSizes) /\
  positive_sizes never_loads (images sample_state) /\
  (snd (convertToPdf never_loads sample_state) = Pending <->
   exists image,
     In image (visited never_loads 0 (images sample_state)) /\
     naturalSize never_loads (preview image) = None) /\
  (snd (convertToPdf never_loads sample_state) = Pending ->
   In (setConverting true) (fst (convertToPdf never_loads sample_state)) /\
   ~ In (setConverting false) (fst (convertToPdf never_loads sample_state)) /\
   saved (fst (convertToPdf never_loads sample_state)) = []).
Proof.
  assert (Hkey : In (pageSize sample_state) (map fst pageSizes))
    by (simpl; tauto).
  assert (Hpos : positive_sizes never_loads (images sample_state))
    by (intros image size _ Hsize; discriminate Hsize).
  split; [exact Hkey|]. split; [exact Hpos|].
  exact (convertToPdf_waits never_loads sample_state Hkey Hpos).
Defined.

(** X13. A run over a non-empty list, with a page size of the table, that
    returns has made, in this order: the calls that set the converting flag
    and the progress 0 and create the document, then only [addPage],
    [addImage] and [setProgress] calls, then one [save] under the name
    [converted-images.pdf] of a document of at least one page, then the
    call that resets the flag. *)
Theorem convertToPdf_saves_last (env : Env) (s : State) :
  images s <> [] -> In (pageSize s) (map fst pageSizes) ->
  snd (convertToPdf env s) = Returned ->
  exists selectedPageSize mid document,
    lookup (pageSize s) pageSizes = Some selectedPageSize /\
    fst (convertToPdf env s) =
      [setConverting true; setProgress 0; new_jsPDF (format selectedPageSize)]
      ++ mid ++
      [pdf_save "converted-images.pdf" document; setConverting false] /\
    Forall (fun c => in_loop c = true) mid /\
    saved (fst (convertToPdf env s)) = [document] /\
    document <> [].
Proof.
  intros Hne Hkey Hret. destruct (lookup_In _ _ Hkey) as [sel Hsel].
  rewrite (convertToPdf_loop env s sel Hne Hsel) in Hret |- *. cbv zeta in *.
  pose proof (loop_calls env sel (marginSize s) (List.length (images s))
                (images s) 0
                {| pdf := jsPDF.new (format sel); processedImages := 0 |})
    as Hcalls.
  destruct (loop env sel (marginSize s) (List.length (images s)) 0 (images s)
              {| pdf := jsPDF.new (format sel); processedImages := 0 |})
    as [[calls st] o].
  cbn [fst snd] in *. destruct o; try discriminate Hret. cbn [fst].
  exists sel, calls, (jsPDF.pages (pdf st)).
  split; [exact Hsel|]. split; [reflexivity|]. split; [exact Hcalls|].
  split.
  - cbn [app saved]. rewrite saved_app.
    rewrite (proj1 (in_loop_quiet _ Hcalls)). reflexivity.
  - unfold jsPDF.pages. destruct (jsPDF.before (pdf st)); discriminate.
Qed.

Lemma convertToPdf_saves_last_witness :
  images sample_state <> [] /\
  In (pageSize sample_state) (map fst pageSizes) /\
  snd (convertToPdf no_second_context sample_state) = Returned /\
  exists selectedPageSize mid document,
    lookup (pageSize sample_state) pageSizes = Some selectedPageSize /\
    fst (convertToPdf no_second_context sample_state) =
      [setConverting true; setProgress 0; new_jsPDF (format selectedPageSize)]
      ++ mid ++
      [pdf_save "converted-images.pdf" document; setConverting false] /\
    Forall (fun c => in_loop c = true) mid /\
    saved (fst (convertToPdf no_second_context sample_state)) = [document] /\
    document <> [].
Proof.
  assert (Hne : images sample_state <> []) by discriminate.
  assert (Hkey : In (pageSize sample_state) (map fst pageSizes))
    by (simpl; tauto).
  assert (Hret : snd (convertToPdf no_second_context sample_state) = Returned)
    by reflexivity.
  split; [exact Hne|]. split; [exact Hkey|]. split; [exact Hret|].
  exact (convertToPdf_saves_last no_second_context sample_state Hne Hkey Hret).
Defined.

(** X14. When the page size is of the table and every image whose
    iteration obtains a 2D context loads, with a positive width and height,
    the run returns, whatever iterations are skipped.  The first page of the saved document holds the
    first image, or nothing when the first iteration was skipped; the pages
    that follow are those of the later images that were not skipped, in
    input order.  The progress reported after the [k]-th image placed is
    [k / n * 100] for the [n] images of the list, so that it ends below 100
    as soon as an image is skipped. *)
Theorem convertToPdf_skips (env : Env) (s : State) (image0 : ImageFile)
  (rest : list ImageFile) (selectedPageSize : PageSize) :
  images s = image0 :: rest ->
  lookup (pageSize s) pageSizes = Some selectedPageSize ->
  (forall image, In image (visited env 0 (images s)) ->
                 naturalSize env (preview image) <> None) ->
  positive_sizes env (images s) ->
  exists calls,
    convertToPdf env s = (calls, Returned) /\
    saved calls =
      [ firstPage env selectedPageSize (marginSize s) image0 ::
        map (fun image =>
               pageOf selectedPageSize (marginSize s) image (sizeOf env image))
            (visited env 1 rest) ] /\
    reported calls =
      0 :: map (share (List.length (images s)))
               (seq 1 (List.length (visited env 0 (images s)))) /\
    milestones calls =
      combine (map preview (visited env 0 (images s)))
              (map (share (List.length (images s)))
                   (seq 1 (List.length (visited env 0 (images s))))) /\
    List.length (filter is_addPage calls) = List.length (visited env 1 rest).
Proof.
  intros Himages Hsel Hload _.
  unfold convertToPdf. rewrite Hsel, Himages in *.
  cbn [List.length Nat.eqb loop visited] in *. unfold firstPage.
  destruct (getContext env 0); cbn [negb].
  - rewrite (naturalSize_sizeOf env image0 (Hload image0 (or_introl eq_refl))).
    destruct (onload_first selectedPageSize (marginSize s)
                (S (List.length rest)) image0 (sizeOf env image0))
      as (d & x0 & y0 & w & h & pdf1 & -> & Hd & Hpages).
    pose proof (loop_calls env selectedPageSize (marginSize s)
                  (S (List.length rest)) rest 1
                  {| pdf := pdf1; processedImages := 1 |}) as Hcalls.
    destruct (loop_visited env selectedPageSize (marginSize s)
                (S (List.length rest)) rest 1%nat
                {| pdf := pdf1; processedImages := 1 |})
      as (calls & st' & Hloop & Hp & Hr & Hm & Hf).
    { lia. }
    { intros image Hin. apply Hload. right. exact Hin. }
    rewrite Hloop in Hcalls |- *. cbn [fst] in Hcalls.
    destruct (in_loop_quiet _ Hcalls) as [Hs _].
    cbn [pdf processedImages] in Hp, Hr, Hm.
    eexists. split; [reflexivity|].
    split.
    { cbn [app saved]. rewrite saved_app, Hs. cbn [app saved].
      rewrite Hp, Hpages. reflexivity. }
    split.
    { cbn [app reported]. rewrite reported_app, Hr. cbn [reported seq map List.length].
      rewrite app_nil_r. reflexivity. }
    split.
    { cbn [app seq map combine List.length]. cbn [milestones].
      rewrite milestones_before_save. cbn [milestones]. rewrite app_nil_r.
      destruct calls as [|c calls]; cbn [milestones]; rewrite Hd, <- Hm;
        reflexivity. }
    cbn [app filter is_addPage]. rewrite filter_app, length_app, Hf.
    cbn [filter is_addPage List.length]. lia.
  - pose proof (loop_calls env selectedPageSize (marginSize s)
                  (S (List.length rest)) rest 1
                  {| pdf := jsPDF.new (format selectedPageSize);
                     processedImages := 0 |}) as Hcalls.
    destruct (loop_visited env selectedPageSize (marginSize s)
                (S (List.length rest)) rest 1%nat
                {| pdf := jsPDF.new (format selectedPageSize);
                   processedImages := 0 |})
      as (calls & st' & Hloop & Hp & Hr & Hm & Hf).
    { lia. }
    { exact Hload. }
    rewrite Hloop in Hcalls |- *. cbn [fst] in Hcalls.
    destruct (in_loop_quiet _ Hcalls) as [Hs _].
    cbn [pdf processedImages] in Hp, Hr, Hm.
    eexists. split; [reflexivity|].
    split.
    { cbn [app saved]. rewrite saved_app, Hs. cbn [app saved].
      rewrite Hp. reflexivity. }
    split.
    { cbn [app reported]. rewrite reported_app, Hr. cbn [reported].
      rewrite app_nil_r. reflexivity. }
    split.
    { cbn [app milestones]. rewrite milestones_before_save. cbn [milestones].
      rewrite app_nil_r. exact Hm. }
    cbn [app filter is_addPage]. rewrite filter_app, length_app, Hf.
    cbn [filter is_addPage List.length]. lia.
Qed.

Lemma convertToPdf_skips_witness :
  images sample_state = sample_image "a" 0 :: [sample_image "b" 90] /\
  lookup (pageSize sample_state) pageSizes = Some letter /\
  positive_sizes no_first_context (images sample_state) /\
  exists calls,
    convertToPdf no_first_context sample_state = (calls, Returned) /\
    saved calls =
      [ firstPage no_first_context letter (marginSize sample_state)
          (sample_image "a" 0) ::
        map (fun image =>
               pageOf letter (marginSize sample_state) image
                 (sizeOf no_first_context image))
            (visited no_first_context 1 [sample_image "b" 90]) ] /\
    reported calls =
      0 :: map (share (List.length (images sample_state)))
               (seq 1 (List.length
                         (visited no_first_context 0 (images sample_state)))) /\
    milestones calls =
      combine (map preview (visited no_first_context 0 (images sample_state)))
              (map (share (List.length (images sample_state)))
                   (seq 1 (List.length
                             (visited no_first_context 0
                                (images sample_state))))) /\
    List.length (filter is_addPage calls) =
      List.length (visited no_first_context 1 [sample_image "b" 90]).
Proof.
  assert (Hpos : positive_sizes no_first_context (images sample_state)).
  { intros image size _ Hsize. simpl in Hsize. injection Hsize as <-.
    split; reflexivity. }
  split; [reflexivity|]. split; [reflexivity|]. split; [exact Hpos|].
  apply (convertToPdf_skips no_first_context sample_state
           (sample_image "a" 0) [sample_image "b" 90] letter);
    try reflexivity; try exact Hpos.
  intros image _. discriminate.
Defined.



(** ** Composition *)

(** X16. Dropping no file changes nothing; dropping two batches one after
    the other is dropping their concatenation; a drop leaves the records
    already in the list in place and appends one record per accepted file,
    in the order of the files. *)
Theorem onDrop_batches (first second : list Accepted) (prev : list ImageFile) :
  onDrop [] prev = prev /\
  onDrop (first ++ second) prev = onDrop second (onDrop first prev) /\
  firstn (List.length prev) (onDrop first prev) = prev /\
  map file (skipn (List.length prev) (onDrop first prev)) =
    map acceptedFile first.
Proof.
  unfold onDrop. split; [apply app_nil_r|].
  split; [rewrite map_app, app_assoc; reflexivity|].
  split.
  - rewrite firstn_app, Nat.sub_diag, firstn_all. cbn [firstn].
    apply app_nil_r.
  - rewrite skipn_app, Nat.sub_diag, skipn_all. cbn [skipn app].
    rewrite map_map. reflexivity.
Qed.

Lemma loop_no_context env selectedPageSize margin totalImages rest :
  forall i st,
    (forall j, getContext env j = false) ->
    loop env selectedPageSize margin totalImages i rest st = ([], st, Returned).
Proof.
  induction rest as [|image rest IH]; intros i st Hnone; [reflexivity|].
  cbn [loop]. rewrite Hnone. cbn [negb]. apply IH, Hnone.
Qed.

(** X17. When no iteration obtains a 2D context, the run over a non-empty
    list with a page size of the table still creates the document and
    saves it: one empty page of the selected size, no image, and no
    progress beyond the initial 0. *)
Theorem convertToPdf_no_context (env : Env) (s : State)
  (selectedPageSize : PageSize) :
  images s <> [] ->
  lookup (pageSize s) pageSizes = Some selectedPageSize ->
  (forall i, getContext env i = false) ->
  convertToPdf env s =
    ([ setConverting true; setProgress 0;
       new_jsPDF (format selectedPageSize);
       pdf_save "converted-images.pdf"
         [ {| jsPDF.getWidth := width selectedPageSize;
              jsPDF.getHeight := height selectedPageSize;
              jsPDF.content := [] |} ];
       setConverting false ],
     Returned).
Proof.
  intros Hne Hsel Hnone. unfold convertToPdf. rewrite Hsel.
  destruct (images s) as [|image rest]; [congruence|].
  cbn [List.length Nat.eqb]. rewrite loop_no_context by exact Hnone.
  reflexivity.
Qed.

Lemma convertToPdf_no_context_witness :
  images sample_state <> [] /\
  lookup (pageSize sample_state) pageSizes = Some letter /\
  convertToPdf no_context sample_state =
    ([ setConverting true; setProgress 0;
       new_jsPDF (format letter);
       pdf_save "converted-images.pdf"
         [ {| jsPDF.getWidth := width letter;
              jsPDF.getHeight := height letter;
              jsPDF.content := [] |} ];
       setConverting false ],
     Returned).
Proof.
  split; [discriminate|]. split; [reflexivity|].
  apply (convertToPdf_no_context no_context sample_state letter);
    [discriminate | reflexivity | reflexivity].
Defined.

Lemma rotateImage_favourable env s id0 direction :
  favourable env s ->
  favourable env (setImages (rotateImage id0 direction (images s)) s).
Proof.
  intros (Hkey & Hctx & Hload & Hpos). split; [exact Hkey|].
  cbn [images setImages].
  split; [|split].
  - intros i Hi. apply Hctx. rewrite rotateImage_map, length_map in Hi. exact Hi.
  - intros image Hin. rewrite rotateImage_map in Hin. apply in_map_iff in Hin.
    destruct Hin as (image0 & <- & Hin).
    destruct (turn_keeps id0 direction image0) as (_ & _ & ->).
    apply Hload, Hin.
  - intros image size Hin Hsize. rewrite rotateImage_map in Hin.
    apply in_map_iff in Hin. destruct Hin as (image0 & <- & Hin).
    destruct (turn_keeps id0 direction image0) as (_ & _ & Hp).
    rewrite Hp in Hsize. exact (Hpos image0 size Hin Hsize).
Qed.

Lemma sizeOf_turn env id0 direction image :
  sizeOf env (turn id0 direction image) = sizeOf env image.
Proof.
  unfold sizeOf. destruct (turn_keeps id0 direction image) as (_ & _ & ->).
  reflexivity.
Qed.

(** X18. In a run in which the browser cooperates (every iteration obtains
    a 2D context and every image loads with a positive width and height),
    rotating the images of
    one id changes their own pages only: the document saved after the
    rotation has the same number of pages, page [i] is the page of the
    [i]-th record turned, and it is the page saved before whenever that
    record has another id. *)
Theorem rotateImage_own_page (env : Env) (s : State) (id0 : string)
  (direction : Direction) :
  images s <> [] -> favourable env s ->
  exists selectedPageSize document document',
    lookup (pageSize s) pageSizes = Some selectedPageSize /\
    saved (fst (convertToPdf env s)) = [document] /\
    saved (fst (convertToPdf env
                  (setImages (rotateImage id0 direction (images s)) s))) =
      [document'] /\
    List.length document' = List.length document /\
    (forall i image,
       nth_error (images s) i = Some image ->
       nth_error document' i =
         Some (pageOf selectedPageSize (marginSize s)
                 (turn id0 direction image) (sizeOf env image))) /\
    (forall i image,
       nth_error (images s) i = Some image -> id image <> id0 ->
       nth_error document' i = nth_error document i).
Proof.
  intros Hne Hfav.
  pose proof (rotateImage_favourable env s id0 direction Hfav) as Hfav'.
  assert (Hne' : images (setImages (rotateImage id0 direction (images s)) s) <> []).
  { cbn [images setImages]. rewrite rotateImage_map.
    destruct (images s); [congruence | discriminate]. }
  destruct (convertToPdf_favourable env s Hne Hfav)
    as (sel & calls & Hsel & Hrun & Hsaved & _).
  destruct (convertToPdf_favourable env _ Hne' Hfav')
    as (sel' & calls' & Hsel' & Hrun' & Hsaved' & _).
  cbn [images pageSize marginSize setImages] in Hsel', Hsaved'.
  rewrite Hsel in Hsel'. injection Hsel' as <-.
  rewrite Hrun, Hrun'. cbn [fst]. rewrite Hsaved, Hsaved'.
  exists sel. do 2 eexists. split; [exact Hsel|].
  split; [reflexivity|]. split; [reflexivity|].
  split; [rewrite !length_map, rotateImage_map, length_map; reflexivity|].
  split.
  - intros i image Hnth.
    rewrite nth_error_map, rotateImage_nth, Hnth. cbn [option_map].
    rewrite sizeOf_turn. reflexivity.
  - intros i image Hnth Hid.
    rewrite !nth_error_map, rotateImage_nth, Hnth. cbn [option_map].
    rewrite (turn_other id0 direction image Hid). reflexivity.
Qed.

Lemma rotateImage_own_page_witness :
  images sample_state <> [] /\
  favourable cooperative sample_state /\
  exists selectedPageSize document document',
    lookup (pageSize sample_state) pageSizes = Some selectedPageSize /\
    saved (fst (convertToPdf cooperative sample_state)) = [document] /\
    saved (fst (convertToPdf cooperative
                  (setImages (rotateImage "b" clockwise (images sample_state))
                     sample_state))) =
      [document'] /\
    List.length document' = List.length document /\
    (forall i image,
       nth_error (images sample_state) i = Some image ->
       nth_error document' i =
         Some (pageOf selectedPageSize (marginSize sample_state)
                 (turn "b" clockwise image) (sizeOf cooperative image))) /\
    (forall i image,
       nth_error (images sample_state) i = Some image -> id image <> "b" ->
       nth_error document' i = nth_error document i).
Proof.
  assert (Hne : images sample_state <> []) by discriminate.
  assert (Hfav : favourable cooperative sample_state).
  { split; [simpl; tauto|]. split; [reflexivity|].
    split; [intros image _; discriminate|].
    intros image size _ Hsize. simpl in Hsize. injection Hsize as <-.
    split; reflexivity. }
  split; [exact Hne|]. split; [exact Hfav|].
  exact (rotateImage_own_page cooperative sample_state "b" clockwise Hne Hfav).
Defined.
